(** * CAN controller driver API (middleware/CANopenNode/port/can.h)

    A shallow embedding of the inline functions and macros of [can.h]:
    the DLC conversions, the frame/filter match, the TDC offset macro and
    the optional [get_max_filters] driver call; together with models of
    the routines that the header only declares (bit-timing calculation,
    prescaler calculation, priority-ordered transmission).

    C integers are mathematical integers ([Z]); where the C expression is
    evaluated in a fixed-width unsigned type its reduction modulo [2^32]
    is written out. *)

From Stdlib Require Import ZArith List Bool Lia.
Import ListNotations.
Local Open Scope Z_scope.

(** ** Helper macros *)

(** [BIT(n)] is [1UL << n]. *)
Definition BIT (n : Z) : Z := Z.shiftl 1 n.

(** Modelled from the spec: the [MIN] macro is used by [can.h] but its
    definition is not part of the header; it is the two-argument
    minimum, [a < b ? a : b]. *)
Definition MIN (a b : Z) : Z := if a <? b then a else b.

(** Modelled from the spec: the [CLAMP] macro is used by [CAN_CALC_TDCO]
    but its definition is not part of the header; the specification
    calls it [clamp(value, low, high)]: values at or below [low] give
    [low], other values are cut off at [high]. *)
Definition CLAMP (val low high : Z) : Z :=
  if val <=? low then low else MIN val high.

(** Modelled from the spec: [ARRAY_SIZE] is not defined in the header; it
    is the number of elements of an array. *)
Definition ARRAY_SIZE {A : Type} (a : list A) : Z := Z.of_nat (length a).

(** Reduction to the range of [unsigned int] / [uint32_t]. *)
Definition u32 (x : Z) : Z := x mod 2 ^ 32.

(** An array read; [None] stands for an access outside the array. *)
Definition array_get (a : list Z) (i : Z) : option Z :=
  if i <? 0 then None else nth_error a (Z.to_nat i).

(** ** Frame and filter definitions *)

Definition CAN_STD_ID_MASK : Z := 0x7FF.
Definition CAN_EXT_ID_MASK : Z := 0x1FFFFFFF.
Definition CAN_MAX_DLC : Z := 8.
Definition CANFD_MAX_DLC : Z := 15.

Definition CAN_FRAME_IDE : Z := BIT 0.
Definition CAN_FRAME_RTR : Z := BIT 1.
Definition CAN_FRAME_FDF : Z := BIT 2.
Definition CAN_FRAME_BRS : Z := BIT 3.
Definition CAN_FRAME_ESI : Z := BIT 4.

Definition CAN_FILTER_IDE : Z := BIT 0.

(** [struct can_frame] without its payload, which no function of the
    header reads. *)
Record can_frame : Type := mk_can_frame {
  frame_id : Z;      (* uint32_t id *)
  frame_dlc : Z;     (* uint8_t dlc *)
  frame_flags : Z    (* uint8_t flags *)
}.

(** [struct can_filter]. *)
Record can_filter : Type := mk_can_filter {
  filter_id : Z;     (* uint32_t id *)
  filter_mask : Z;   (* uint32_t mask *)
  filter_flags : Z   (* uint8_t flags *)
}.

(** [enum can_state]. *)
Inductive can_state : Type :=
| CAN_STATE_ERROR_ACTIVE
| CAN_STATE_ERROR_WARNING
| CAN_STATE_ERROR_PASSIVE
| CAN_STATE_BUS_OFF
| CAN_STATE_STOPPED.

(** ** DLC conversions *)

Definition dlc_table : list Z :=
  [0; 1; 2; 3; 4; 5; 6; 7; 8; 12; 16; 20; 24; 32; 48; 64].

(** [can_dlc_to_bytes]: the table read at [MIN(dlc, ARRAY_SIZE - 1)].
    The result is [None] exactly when the read would fall outside the
    table. *)
Definition can_dlc_to_bytes (dlc : Z) : option Z :=
  array_get dlc_table (MIN dlc (ARRAY_SIZE dlc_table - 1)).

(** [can_bytes_to_dlc]: the chain of conditional expressions. *)
Definition can_bytes_to_dlc (num_bytes : Z) : Z :=
  if num_bytes <=? 8 then num_bytes
  else if num_bytes <=? 12 then 9
  else if num_bytes <=? 16 then 10
  else if num_bytes <=? 20 then 11
  else if num_bytes <=? 24 then 12
  else if num_bytes <=? 32 then 13
  else if num_bytes <=? 48 then 14
  else 15.

(** ** Frame / filter match *)

Definition frame_is_extended (f : can_frame) : bool :=
  negb (Z.land (frame_flags f) CAN_FRAME_IDE =? 0).

Definition filter_is_extended (flt : can_filter) : bool :=
  negb (Z.land (filter_flags flt) CAN_FILTER_IDE =? 0).

(** [can_frame_matches_filter], with its three early returns in order. *)
Definition can_frame_matches_filter (frame : can_frame) (filter : can_filter)
  : bool :=
  if negb (Z.land (frame_flags frame) CAN_FRAME_IDE =? 0)
     && (Z.land (filter_flags filter) CAN_FILTER_IDE =? 0)
  then false
  else if (Z.land (frame_flags frame) CAN_FRAME_IDE =? 0)
          && negb (Z.land (filter_flags filter) CAN_FILTER_IDE =? 0)
  then false
  else if negb (Z.land (Z.lxor (frame_id frame) (filter_id filter))
                       (filter_mask filter) =? 0)
  then false
  else true.

(** ** Bit timing *)

(** [struct can_timing]; all fields are [uint16_t]. *)
Record can_timing : Type := mk_can_timing {
  sjw : Z;
  prop_seg : Z;
  phase_seg1 : Z;
  phase_seg2 : Z;
  prescaler : Z
}.

(** Number of time quanta in one bit: the sync segment (always one
    quantum) plus the three programmable segments. *)
Definition total_tq (t : can_timing) : Z :=
  1 + prop_seg t + phase_seg1 t + phase_seg2 t.

(** [CAN_CALC_TDCO]: all operands are promoted to [unsigned int] by the
    [1U], so the product is taken modulo [2^32] before it is clamped.
    The bounds are [int] or [unsigned int] operands; the comparisons of
    [CLAMP] convert them to [unsigned int] as well, and the result has
    that type. *)
Definition CAN_CALC_TDCO (timing_data : can_timing) (tdco_min tdco_max : Z)
  : Z :=
  CLAMP (u32 ((1 + prop_seg timing_data + phase_seg1 timing_data)
              * prescaler timing_data))
        (u32 tdco_min) (u32 tdco_max).

(** Error kinds, named by the [errno] values the header documents. *)
Inductive can_errno : Type :=
| EINVAL        (* invalid argument *)
| ENOTSUP       (* unsupported *)
| EIO           (* input/output error, core clock not available *)
| ENETDOWN      (* controller stopped *)
| ENETUNREACH.  (* controller in bus-off state *)

(** ** Driver interface *)

(** The members of [struct can_driver_api] used by the functions below.
    [D] is the driver instance the callbacks receive through [dev].  A
    callback that reports an error through its return code and leaves its
    output argument unwritten is [None]; the optional [get_max_filters]
    member is [None] when the function pointer is [NULL]. *)
Record can_driver_api (D : Type) : Type := mk_can_driver_api {
  get_core_clock : D -> option Z;
  get_max_filters : option (D -> bool -> Z);
  timing_min : can_timing;
  timing_max : can_timing
}.
Arguments get_core_clock {D} _ _.
Arguments get_max_filters {D} _.
Arguments timing_min {D} _.
Arguments timing_max {D} _.
Arguments mk_can_driver_api {D} _ _ _ _.

(** [struct device]. *)
Record device (D : Type) : Type := mk_device {
  dev_data : D;
  dev_api : can_driver_api D
}.
Arguments dev_data {D} _.
Arguments dev_api {D} _.
Arguments mk_device {D} _ _.

Definition can_get_core_clock {D} (dev : device D) : option Z :=
  get_core_clock (dev_api dev) (dev_data dev).

Definition can_get_timing_min {D} (dev : device D) : can_timing :=
  timing_min (dev_api dev).

Definition can_get_timing_max {D} (dev : device D) : can_timing :=
  timing_max (dev_api dev).

(** [can_get_max_filters]: [-1] when the driver does not provide the
    call, the driver's answer otherwise. *)
Definition can_get_max_filters {D} (dev : device D) (ide : bool) : Z :=
  match get_max_filters (dev_api dev) with
  | None => -1
  | Some f => f (dev_data dev) ide
  end.

(** ** Timing calculation

    [can_calc_timing] and [can_calc_prescaler] are declared in [can.h];
    their bodies are not part of the header.  They are modelled from the
    documentation of the declarations and from the design document. *)

Definition within (lo hi x : Z) : bool := (lo <=? x) && (x <=? hi).

(** Modelled from the spec: a timing is within the supplied bounds when
    its prescaler and its three segments are (the body of
    [can_calc_timing] is missing). *)
Definition segments_in_bounds (tmin tmax t : can_timing) : bool :=
  within (prescaler tmin) (prescaler tmax) (prescaler t)
  && within (prop_seg tmin) (prop_seg tmax) (prop_seg t)
  && within (phase_seg1 tmin) (phase_seg1 tmax) (phase_seg1 t)
  && within (phase_seg2 tmin) (phase_seg2 tmax) (phase_seg2 t).

(** Modelled from the spec: bounds that are not malformed, as checked by
    the missing body of [can_calc_timing]: a prescaler of at least one,
    segments that are not negative, and no minimum above its maximum. *)
Definition ranges_ok (tmin tmax : can_timing) : bool :=
  (1 <=? prescaler tmin) && (prescaler tmin <=? prescaler tmax)
  && (0 <=? prop_seg tmin) && (prop_seg tmin <=? prop_seg tmax)
  && (0 <=? phase_seg1 tmin) && (phase_seg1 tmin <=? phase_seg1 tmax)
  && (0 <=? phase_seg2 tmin) && (phase_seg2 tmin <=? phase_seg2 tmax)
  && (0 <=? sjw tmin) && (sjw tmin <=? sjw tmax).

(** Modelled from the spec: the default sample point chosen when the
    caller passes 0 (the body of [can_calc_timing] is missing): 750 for
    bitrates over 800 kbit/s, 800 for bitrates over 500 kbit/s, 875
    otherwise. *)
Definition sample_point_for_bitrate (bitrate : Z) : Z :=
  if 800000 <? bitrate then 750
  else if 500000 <? bitrate then 800
  else 875.

(** Modelled from the spec: the sample point of a timing in permille,
    [(1 + prop_seg + phase_seg1) / (1 + prop_seg + phase_seg1 + phase_seg2)]
    (computed by the missing body of [can_calc_timing]). *)
Definition sample_point_of (t : can_timing) : Z :=
  (1 + prop_seg t + phase_seg1 t) * 1000 / total_tq t.

(** The integers [lo], [lo + 1], ..., [hi]. *)
Definition Zrange (lo hi : Z) : list Z :=
  map (fun i => lo + Z.of_nat i) (seq 0 (Z.to_nat (hi - lo + 1))).

(** Modelled from the spec: the search of the missing body of
    [can_calc_timing] over the segments: all splits of [total] time
    quanta into the sync segment and three segments within the bounds,
    for prescaler [p]. *)
Definition segment_splits (tmin tmax : can_timing) (p total : Z)
  : list can_timing :=
  flat_map (fun prop =>
    flat_map (fun ps1 =>
      let ps2 := total - 1 - prop - ps1 in
      if within (phase_seg2 tmin) (phase_seg2 tmax) ps2
      then [mk_can_timing (sjw tmin) prop ps1 ps2 p]
      else [])
      (Zrange (phase_seg1 tmin) (phase_seg1 tmax)))
    (Zrange (prop_seg tmin) (prop_seg tmax)).

(** Modelled from the spec: the search of the missing body of
    [can_calc_timing] over the prescalers: all timings within the bounds
    whose bitrate is exactly [bitrate]; for every prescaler that divides
    the clock evenly, the splits of the resulting number of time quanta. *)
Definition exact_solutions (core_clock : Z) (tmin tmax : can_timing)
    (bitrate : Z) : list can_timing :=
  flat_map (fun p =>
    if core_clock mod (p * bitrate) =? 0
    then segment_splits tmin tmax p (core_clock / (p * bitrate))
    else [])
    (Zrange (prescaler tmin) (prescaler tmax)).

(** Modelled from the spec: the choice made by the missing body of
    [can_calc_timing] among the exact solutions: the candidate whose
    sample point is closest to [sample_pnt]; among equally close ones the
    first. *)
Fixpoint closest_sample_point (sample_pnt : Z) (l : list can_timing)
  : option can_timing :=
  match l with
  | [] => None
  | t :: l' =>
      match closest_sample_point sample_pnt l' with
      | None => Some t
      | Some b =>
          if Z.abs (sample_point_of t - sample_pnt)
             <=? Z.abs (sample_point_of b - sample_pnt)
          then Some t else Some b
      end
  end.

(** Modelled from the spec: the timing calculator behind
    [can_calc_timing], whose body is missing.  Invalid arguments (zero
    bitrate, sample point out of range, malformed bounds) give [EINVAL],
    an unknown core clock gives [EIO]; a sample point of 0 selects the
    default; the search runs over the exact-bitrate solutions within the
    bounds and fails with [ENOTSUP] when there is none; otherwise the
    solution with the closest sample point is returned together with the
    signed deviation of its sample point in permille.  The specification
    does not say how the synchronisation jump width is chosen; the model
    leaves it at its lower bound. *)
Definition calc_timing (core_clock : option Z) (tmin tmax : can_timing)
    (bitrate sample_pnt : Z) : can_errno + can_timing * Z :=
  if (bitrate =? 0) || (sample_pnt <? 0) || (1000 <? sample_pnt)
     || negb (ranges_ok tmin tmax)
  then inl EINVAL
  else
    match core_clock with
    | None => inl EIO
    | Some clk =>
        let sp := if sample_pnt =? 0
                  then sample_point_for_bitrate bitrate
                  else sample_pnt in
        match closest_sample_point sp (exact_solutions clk tmin tmax bitrate) with
        | None => inl ENOTSUP
        | Some t => inr (t, sample_point_of t - sp)
        end
    end.

(** Modelled from the spec: [can_calc_timing] delegates to the timing
    calculator with the controller's clock and bounds. *)
Definition can_calc_timing {D} (dev : device D) (bitrate sample_pnt : Z)
  : can_errno + can_timing * Z :=
  calc_timing (can_get_core_clock dev)
              (can_get_timing_min dev) (can_get_timing_max dev)
              bitrate sample_pnt.

Definition set_prescaler (t : can_timing) (p : Z) : can_timing :=
  mk_can_timing (sjw t) (prop_seg t) (phase_seg1 t) (phase_seg2 t) p.

(** Modelled from the spec: [can_calc_prescaler], whose body is missing.
    The segments of [timing] are given; the prescaler is filled in and
    the bitrate error is returned, which is the remainder of the division
    of the clock rate by the bitrate times the timing segments.  An
    unknown core clock gives [EIO], a zero bitrate [EINVAL]. *)
Definition can_calc_prescaler {D} (dev : device D) (timing : can_timing)
    (bitrate : Z) : can_errno + can_timing * Z :=
  match can_get_core_clock dev with
  | None => inl EIO
  | Some core_clock =>
      if bitrate =? 0 then inl EINVAL
      else
        let ts := total_tq timing in
        inr (set_prescaler timing (core_clock / (bitrate * ts)),
             core_clock mod (bitrate * ts))
  end.

(** ** Transmission order

    [can_send] is declared in [can.h]; the queue behind it is not part
    of the header.  The scheduler is modelled from the documentation of
    [can_send] and from the design document, which order the pending
    frames by CAN arbitration priority. *)

Definition frame_is_rtr (f : can_frame) : bool :=
  negb (Z.land (frame_flags f) CAN_FRAME_RTR =? 0).

(** Modelled from the spec: the base 11 bits of a frame's identifier
    (the queue behind [can_send] is missing): the identifier of a
    standard frame, the higher 11 bits of a 29-bit extended identifier. *)
Definition base_id (f : can_frame) : Z :=
  if frame_is_extended f then Z.shiftr (frame_id f) 18 else frame_id f.

(** Modelled from the spec: the 18 identifier bits an extended frame has
    below its base bits; a standard frame has none (the queue behind
    [can_send] is missing). *)
Definition ext_id_low (f : can_frame) : Z :=
  if frame_is_extended f then Z.land (frame_id f) 0x3FFFF else 0.

(** Modelled from the spec: the identifier of a frame as arbitration
    compares it, a standard identifier aligned with the base bits of an
    extended one (the queue behind [can_send] is missing). *)
Definition arbitration_id (f : can_frame) : Z :=
  if frame_is_extended f then frame_id f else Z.shiftl (frame_id f) 18.

Definition bool_bit (b : bool) : Z := if b then 1 else 0.

(** Modelled from the spec: the priority key of a pending transmission
    (the queue behind [can_send] is missing).  It is derived from the
    identifier, is_rtr and is_extended of the frame in the order that the
    three rules give: the lower identifier first, compared on the base 11
    bits between a standard and an extended frame; a standard frame
    before an extended frame with the same base bits; and a data frame
    before a remote request with the identical identifier.  The
    components are, from the most significant one: base bits,
    is_extended, remaining identifier bits, is_rtr. *)
Definition priority_key (f : can_frame) : Z * Z * Z * Z :=
  (base_id f, bool_bit (frame_is_extended f), ext_id_low f,
   bool_bit (frame_is_rtr f)).

(** Modelled from the spec: the order on priority keys, component by
    component from the left; a lower key is a higher priority. *)
Definition key_ltb (a b : Z * Z * Z * Z) : bool :=
  let '(a1, a2, a3, a4) := a in
  let '(b1, b2, b3, b4) := b in
  (a1 <? b1)
  || ((a1 =? b1)
      && ((a2 <? b2)
          || ((a2 =? b2)
              && ((a3 <? b3) || ((a3 =? b3) && (a4 <? b4)))))).

Definition key_leb (a b : Z * Z * Z * Z) : bool := negb (key_ltb b a).

(** The same order as a proposition (used to reason about it). *)
Definition key_lt (a b : Z * Z * Z * Z) : Prop :=
  let '(a1, a2, a3, a4) := a in
  let '(b1, b2, b3, b4) := b in
  a1 < b1
  \/ (a1 = b1
      /\ (a2 < b2 \/ (a2 = b2 /\ (a3 < b3 \/ (a3 = b3 /\ a4 < b4))))).

(** Modelled from the spec: the transmit scheduler.  [tx_queue] holds
    the frames accepted by [can_send] and not yet handed to the backend,
    oldest first; [tx_backend] records the frames handed to the backend,
    in the order they were handed over. *)
Record tx_scheduler : Type := mk_tx_scheduler {
  ctrl_state : can_state;
  tx_queue : list can_frame;
  tx_backend : list can_frame
}.

(** Modelled from the spec: [can_send] refuses a frame with [ENETDOWN]
    while the controller is stopped and with [ENETUNREACH] while it is in
    bus-off state, and queues it otherwise. *)
Definition can_send (s : tx_scheduler) (frame : can_frame)
  : can_errno + tx_scheduler :=
  match ctrl_state s with
  | CAN_STATE_STOPPED => inl ENETDOWN
  | CAN_STATE_BUS_OFF => inl ENETUNREACH
  | _ => inr (mk_tx_scheduler (ctrl_state s) (tx_queue s ++ [frame])
                              (tx_backend s))
  end.

(** Modelled from the spec: the choice of the next frame by the missing
    queue behind [can_send]: the queued frame with the lowest key and the
    frames that stay queued; among frames of equal key the oldest one is
    taken. *)
Fixpoint take_lowest (q : list can_frame)
  : option (can_frame * list can_frame) :=
  match q with
  | [] => None
  | f :: q' =>
      match take_lowest q' with
      | None => Some (f, [])
      | Some (g, rest) =>
          if key_leb (priority_key f) (priority_key g)
          then Some (f, q')
          else Some (g, f :: rest)
      end
  end.

(** Modelled from the spec: handing the next frame to the backend. *)
Definition dispatch_next (s : tx_scheduler)
  : option (can_frame * tx_scheduler) :=
  match take_lowest (tx_queue s) with
  | None => None
  | Some (f, rest) =>
      Some (f, mk_tx_scheduler (ctrl_state s) rest (tx_backend s ++ [f]))
  end.

(** ** Concrete instances used in the examples below *)

(** A controller clocked at 8 MHz with small timing bounds and room for
    28 standard and 14 extended filters. *)
Definition example_timing_min : can_timing := mk_can_timing 1 1 1 1 1.
Definition example_timing_max : can_timing := mk_can_timing 4 8 8 8 32.

Definition example_max_filters (_ : unit) (ide : bool) : Z :=
  if ide then 14 else 28.

Definition example_dev : device unit :=
  mk_device tt
    (mk_can_driver_api (fun _ => Some 8000000) (Some example_max_filters)
                       example_timing_min example_timing_max).

(** The same controller with a driver that leaves [get_max_filters]
    unset. *)
Definition example_dev_basic : device unit :=
  mk_device tt
    (mk_can_driver_api (fun _ => Some 8000000) None
                       example_timing_min example_timing_max).

(** Data phase timing whose TDC offset product is [2^32 + 4]. *)
Definition example_timing_wide : can_timing :=
  mk_can_timing 1 33024 33025 1 65026.

(** A standard remote request and an extended data frame, both with
    identifier 0. *)
Definition example_std_rtr : can_frame := mk_can_frame 0 0 CAN_FRAME_RTR.
Definition example_ext_data : can_frame := mk_can_frame 0 0 CAN_FRAME_IDE.

Definition example_idle : tx_scheduler :=
  mk_tx_scheduler CAN_STATE_ERROR_ACTIVE [] [].

(** An extended data frame whose base bits are 0x100. *)
Definition example_ext_100 : can_frame :=
  mk_can_frame (Z.shiftl 0x100 18 + 5) 8 CAN_FRAME_IDE.

(** The scheduler after the standard remote request and then the
    extended data frame were sent. *)
Definition example_one : tx_scheduler :=
  mk_tx_scheduler CAN_STATE_ERROR_ACTIVE [example_std_rtr] [].

Definition example_contended : tx_scheduler :=
  mk_tx_scheduler CAN_STATE_ERROR_ACTIVE [example_std_rtr; example_ext_data] [].

(** Three standard frames waiting: a data frame 0x300, a remote request
    0x100 and a data frame 0x100. *)
Definition example_data_300 : can_frame := mk_can_frame 0x300 8 0.
Definition example_rtr_100 : can_frame := mk_can_frame 0x100 0 CAN_FRAME_RTR.
Definition example_data_100 : can_frame := mk_can_frame 0x100 2 0.

Definition example_busy : tx_scheduler :=
  mk_tx_scheduler CAN_STATE_ERROR_ACTIVE
    [example_data_300; example_rtr_100; example_data_100] [].

(** ** Further macros and constants of [can.h] *)

(** [DIV_ROUND_UP(n, d)] is [((n) + (d) - 1) / (d)].  The header applies
    it to unsigned operands ([CAN_MAX_DLEN] and a [sizeof]), so the sum
    is taken modulo [2^32]; the division truncates. *)
Definition DIV_ROUND_UP (n d : Z) : Z := Z.quot (u32 (n + d - 1)) d.

(** [CAN_MAX_DLEN]: 8 without [CONFIG_CAN_FD_MODE], 64 with it. *)
Definition CAN_MAX_DLEN (config_can_fd_mode : bool) : Z :=
  if config_can_fd_mode then 64 else 8.

(** Number of elements of the [data_32] member of [struct can_frame]. *)
Definition can_frame_data_32_len (config_can_fd_mode : bool) : Z :=
  DIV_ROUND_UP (CAN_MAX_DLEN config_can_fd_mode) 4.

Definition CAN_MODE_NORMAL : Z := 0.
Definition CAN_MODE_LOOPBACK : Z := BIT 0.
Definition CAN_MODE_LISTENONLY : Z := BIT 1.
Definition CAN_MODE_FD : Z := BIT 2.
Definition CAN_MODE_ONE_SHOT : Z := BIT 3.
Definition CAN_MODE_3_SAMPLES : Z := BIT 4.
Definition CAN_MODE_MANUAL_RECOVERY : Z := BIT 5.

(** ** GUIX: 32bpp rotated horizontal pattern line
    (gx_display_driver_32bpp_rotated_horizontal_pattern_line_draw.c)

    The canvas memory is a map from pixel index (in [ULONG] units from
    [gx_draw_context_memory]) to pixel value.  The structures hold the
    members the function reads or writes. *)

(** Modelled from the spec: [GX_SCREEN_ROTATION_CW] is defined in
    [gx_api.h], which is not among the sources; it is the rotation angle
    of a display turned clockwise.  No property below depends on its
    value. *)
Definition GX_SCREEN_ROTATION_CW : Z := 90.

Record GX_DISPLAY : Type := mk_GX_DISPLAY {
  gx_display_rotation_angle : Z
}.

Record GX_CANVAS : Type := mk_GX_CANVAS {
  gx_canvas_x_resolution : Z;
  gx_canvas_y_resolution : Z
}.

Record GX_BRUSH : Type := mk_GX_BRUSH {
  gx_brush_line_pattern : Z;   (* ULONG *)
  gx_brush_pattern_mask : Z;   (* ULONG *)
  gx_brush_line_color : Z;
  gx_brush_fill_color : Z
}.

Record GX_DRAW_CONTEXT : Type := mk_GX_DRAW_CONTEXT {
  gx_draw_context_memory : Z -> Z;
  gx_draw_context_pitch : Z;
  gx_draw_context_display : GX_DISPLAY;
  gx_draw_context_canvas : GX_CANVAS;
  gx_draw_context_brush : GX_BRUSH
}.

(** [*put = value]. *)
Definition store (mem : Z -> Z) (put value : Z) : Z -> Z :=
  fun a => if a =? put then value else mem a.

(** The colour of one pixel: [pattern & mask] selects the line colour,
    otherwise the fill colour. *)
Definition pattern_color (pattern mask on_color off_color : Z) : Z :=
  if negb (Z.land pattern mask =? 0) then on_color else off_color.

(** [mask >>= 1; if (!mask) mask = 0x80000000;] *)
Definition next_mask (mask : Z) : Z :=
  let mask' := Z.shiftr mask 1 in
  if mask' =? 0 then 0x80000000 else mask'.

(** The body of the [for] loop, run [n] times from pixel address [put]
    and mask [mask]; the result is the mask and the memory at loop
    exit. *)
Fixpoint draw_columns (n : nat) (pitch pattern on_color off_color : Z)
    (put mask : Z) (mem : Z -> Z) : Z * (Z -> Z) :=
  match n with
  | O => (mask, mem)
  | S n' =>
      draw_columns n' pitch pattern on_color off_color
        (put - pitch) (next_mask mask)
        (store mem put (pattern_color pattern mask on_color off_color))
  end.

(** The address of the first pixel, by rotation. *)
Definition pattern_line_rowstart (context : GX_DRAW_CONTEXT)
    (xstart xend ypos : Z) : Z :=
  if gx_display_rotation_angle (gx_draw_context_display context)
     =? GX_SCREEN_ROTATION_CW
  then
    (gx_canvas_x_resolution (gx_draw_context_canvas context) - xstart - 1)
    * gx_draw_context_pitch context
    + ypos
  else
    xend * gx_draw_context_pitch context
    + (gx_canvas_y_resolution (gx_draw_context_canvas context) - ypos - 1).

(** [_gx_display_driver_32bpp_rotated_horizontal_pattern_line_draw]: the
    loop runs [len = xend - xstart + 1] times (not at all if [len] is
    not positive); the mask at loop exit is saved back to the brush. *)
Definition _gx_display_driver_32bpp_rotated_horizontal_pattern_line_draw
    (context : GX_DRAW_CONTEXT) (xstart xend ypos : Z) : GX_DRAW_CONTEXT :=
  let len := xend - xstart + 1 in
  let rowstart := pattern_line_rowstart context xstart xend ypos in
  let brush := gx_draw_context_brush context in
  let pattern := gx_brush_line_pattern brush in
  let mask := gx_brush_pattern_mask brush in
  let on_color := gx_brush_line_color brush in
  let off_color := gx_brush_fill_color brush in
  let '(mask', mem') :=
    draw_columns (Z.to_nat len) (gx_draw_context_pitch context)
                 pattern on_color off_color rowstart mask
                 (gx_draw_context_memory context) in
  mk_GX_DRAW_CONTEXT mem'
    (gx_draw_context_pitch context)
    (gx_draw_context_display context)
    (gx_draw_context_canvas context)
    (mk_GX_BRUSH pattern mask' on_color off_color).

(** A 4 x 3 canvas turned clockwise (pitch 3), all pixels 0, with a
    dashed pattern. *)
Definition example_brush : GX_BRUSH :=
  mk_GX_BRUSH 0xF0F0F0F0 0x80000000 7 9.

Definition example_context_cw : GX_DRAW_CONTEXT :=
  mk_GX_DRAW_CONTEXT (fun _ => 0) 3
    (mk_GX_DISPLAY GX_SCREEN_ROTATION_CW) (mk_GX_CANVAS 4 3) example_brush.

(** The same canvas turned the other way. *)
Definition example_context_ccw : GX_DRAW_CONTEXT :=
  mk_GX_DRAW_CONTEXT (fun _ => 0) 3
    (mk_GX_DISPLAY 270) (mk_GX_CANVAS 4 3) example_brush.

(** * Properties *)

(** ** DLC conversions *)

Lemma dlc_index_in_table (dlc : Z) :
  0 <= dlc -> 0 <= MIN dlc (ARRAY_SIZE dlc_table - 1) <= 15.
Proof.
  intros H. unfold MIN, ARRAY_SIZE. simpl.
  destruct (dlc <? 15) eqn:E.
  - apply Z.ltb_lt in E. lia.
  - lia.
Qed.

(** Case analysis of an integer known to lie in [0..15]. *)
Lemma Z_cases_0_15 (P : Z -> Prop) :
  P 0 -> P 1 -> P 2 -> P 3 -> P 4 -> P 5 -> P 6 -> P 7 ->
  P 8 -> P 9 -> P 10 -> P 11 -> P 12 -> P 13 -> P 14 -> P 15 ->
  forall z, 0 <= z <= 15 -> P z.
Proof.
  intros H0 H1 H2 H3 H4 H5 H6 H7 H8 H9 H10 H11 H12 H13 H14 H15 z Hz.
  assert (z = 0 \/ z = 1 \/ z = 2 \/ z = 3 \/ z = 4 \/ z = 5 \/ z = 6 \/ z = 7
          \/ z = 8 \/ z = 9 \/ z = 10 \/ z = 11 \/ z = 12 \/ z = 13 \/ z = 14
          \/ z = 15) as Hc by lia.
  repeat (destruct Hc as [-> | Hc]; [assumption |]).
  subst z. assumption.
Qed.

Lemma can_dlc_to_bytes_clamped (dlc : Z) :
  15 <= dlc -> can_dlc_to_bytes dlc = Some 64.
Proof.
  intros H. unfold can_dlc_to_bytes, MIN, ARRAY_SIZE. simpl.
  destruct (dlc <? 15) eqn:E.
  - apply Z.ltb_lt in E. lia.
  - reflexivity.
Qed.

(** Every entry of the table is converted back to its index. *)
Lemma dlc_table_inverse (dlc : Z) :
  0 <= dlc <= 15 ->
  exists bytes,
    can_dlc_to_bytes dlc = Some bytes /\ can_bytes_to_dlc bytes = dlc.
Proof.
  revert dlc. apply Z_cases_0_15; eexists; split; reflexivity.
Qed.

(** C3: for every dlc in 0..15, converting the DLC to a byte count and
    the byte count back to a DLC gives the original dlc. *)
Theorem dlc_bytes_roundtrip (dlc : Z) :
  0 <= dlc <= 15 ->
  option_map can_bytes_to_dlc (can_dlc_to_bytes dlc) = Some dlc.
Proof.
  intros H. destruct (dlc_table_inverse dlc H) as (bytes & -> & <-).
  reflexivity.
Qed.

Lemma dlc_bytes_roundtrip_witness :
  0 <= 13 <= 15
  /\ option_map can_bytes_to_dlc (can_dlc_to_bytes 13) = Some 13.
Proof.
  split; [lia | apply (dlc_bytes_roundtrip 13); lia].
Defined.

(** C4: [can_dlc_to_bytes] is the fixed table: a dlc in 0..8 maps to
    itself, 9 to 12, 10 to 16, 11 to 20, 12 to 24, 13 to 32, 14 to 48 and
    15 to 64; hence the mapping is injective on the dlc values above 8
    (9..15). *)
Theorem can_dlc_to_bytes_table :
  (forall dlc, 0 <= dlc <= 8 -> can_dlc_to_bytes dlc = Some dlc)
  /\ can_dlc_to_bytes 9 = Some 12
  /\ can_dlc_to_bytes 10 = Some 16
  /\ can_dlc_to_bytes 11 = Some 20
  /\ can_dlc_to_bytes 12 = Some 24
  /\ can_dlc_to_bytes 13 = Some 32
  /\ can_dlc_to_bytes 14 = Some 48
  /\ can_dlc_to_bytes 15 = Some 64
  /\ (forall a b, 8 < a <= 15 -> 8 < b <= 15 ->
        can_dlc_to_bytes a = can_dlc_to_bytes b -> a = b).
Proof.
  split.
  { intros dlc H.
    assert (0 <= dlc <= 15) as H15 by lia.
    revert H. pattern dlc.
    apply Z_cases_0_15; [.. | exact H15]; intros H; try reflexivity; lia. }
  repeat (split; [reflexivity |]).
  intros a b Ha Hb Heq.
  destruct (dlc_table_inverse a) as (x & Ea & Ia); [lia |].
  destruct (dlc_table_inverse b) as (y & Eb & Ib); [lia |].
  rewrite Ea, Eb in Heq. inversion Heq. subst y. congruence.
Qed.

Lemma can_dlc_to_bytes_table_witness :
  (0 <= 5 <= 8 /\ can_dlc_to_bytes 5 = Some 5)
  /\ (8 < 11 <= 15 /\ can_dlc_to_bytes 11 = can_dlc_to_bytes 11 /\ 11 = 11).
Proof.
  destruct can_dlc_to_bytes_table as (Hlow & _ & _ & _ & _ & _ & _ & _ & Hinj).
  split.
  - split; [lia | apply (Hlow 5); lia].
  - split; [lia | split; [reflexivity |]].
    apply (Hinj 11 11); [lia | lia | reflexivity].
Defined.

(** C10: [can_dlc_to_bytes] is total on 8-bit inputs: the table index
    is clamped to the last entry, so the read stays inside the table; the
    result is 64 for every dlc above 15 and never exceeds 64. *)
Theorem can_dlc_to_bytes_total (dlc : Z) :
  0 <= dlc <= 255 ->
  0 <= MIN dlc (ARRAY_SIZE dlc_table - 1) < ARRAY_SIZE dlc_table
  /\ (15 < dlc -> MIN dlc (ARRAY_SIZE dlc_table - 1) = ARRAY_SIZE dlc_table - 1)
  /\ exists bytes,
       can_dlc_to_bytes dlc = Some bytes
       /\ 0 <= bytes <= 64
       /\ (15 < dlc -> bytes = 64).
Proof.
  intros H.
  split.
  { pose proof (dlc_index_in_table dlc) as Hi.
    change (ARRAY_SIZE dlc_table) with 16 in *. lia. }
  split.
  { intros Hd. unfold MIN. change (ARRAY_SIZE dlc_table - 1) with 15.
    destruct (dlc <? 15) eqn:E; [apply Z.ltb_lt in E; lia | reflexivity]. }
  destruct (Z_lt_le_dec dlc 15) as [Hlt | Hge].
  - assert (0 <= dlc <= 15) as H15 by lia. clear H Hlt.
    pattern dlc.
    apply Z_cases_0_15; [.. | exact H15];
      (eexists; split; [reflexivity | split; [lia | intros; lia]]).
  - exists 64. split; [apply can_dlc_to_bytes_clamped; lia |].
    split; [lia | reflexivity].
Qed.

Lemma can_dlc_to_bytes_total_witness :
  0 <= 200 <= 255
  /\ exists bytes, can_dlc_to_bytes 200 = Some bytes
                   /\ 0 <= bytes <= 64 /\ (15 < 200 -> bytes = 64).
Proof.
  split; [lia |].
  apply (can_dlc_to_bytes_total 200). lia.
Defined.

(** ** Frame / filter match *)

(** C2: a frame matches a filter exactly when their extended-id flags
    agree and [(frame.id XOR filter.id) AND filter.mask] is 0; if the
    flags differ the result is false whatever the id and mask are. *)
Theorem can_frame_matches_filter_iff (frame : can_frame) (filter : can_filter) :
  (can_frame_matches_filter frame filter = true
   <-> frame_is_extended frame = filter_is_extended filter
       /\ Z.land (Z.lxor (frame_id frame) (filter_id filter))
                 (filter_mask filter) = 0)
  /\ (frame_is_extended frame <> filter_is_extended filter ->
      can_frame_matches_filter frame filter = false).
Proof.
  unfold can_frame_matches_filter, frame_is_extended, filter_is_extended.
  destruct (Z.land (frame_flags frame) CAN_FRAME_IDE =? 0);
    destruct (Z.land (filter_flags filter) CAN_FILTER_IDE =? 0);
    simpl.
  - split.
    + destruct (Z.eqb_spec
                  (Z.land (Z.lxor (frame_id frame) (filter_id filter))
                          (filter_mask filter)) 0) as [E | E]; simpl.
      * split; auto.
      * split; [discriminate | intros [_ H]; contradiction].
    + intros H. contradiction H. reflexivity.
  - split.
    + split; [discriminate | intros [H _]; discriminate].
    + reflexivity.
  - split.
    + split; [discriminate | intros [H _]; discriminate].
    + reflexivity.
  - split.
    + destruct (Z.eqb_spec
                  (Z.land (Z.lxor (frame_id frame) (filter_id filter))
                          (filter_mask filter)) 0) as [E | E]; simpl.
      * split; auto.
      * split; [discriminate | intros [_ H]; contradiction].
    + intros H. contradiction H. reflexivity.
Qed.

Lemma can_frame_matches_filter_iff_witness :
  frame_is_extended (mk_can_frame 0x123 8 CAN_FRAME_IDE)
    <> filter_is_extended (mk_can_filter 0x123 0x7FF 0)
  /\ can_frame_matches_filter (mk_can_frame 0x123 8 CAN_FRAME_IDE)
                              (mk_can_filter 0x123 0x7FF 0) = false.
Proof.
  assert (frame_is_extended (mk_can_frame 0x123 8 CAN_FRAME_IDE)
          <> filter_is_extended (mk_can_filter 0x123 0x7FF 0)) as Hne
    by (vm_compute; discriminate).
  split; [exact Hne |].
  exact (proj2 (can_frame_matches_filter_iff
                  (mk_can_frame 0x123 8 CAN_FRAME_IDE)
                  (mk_can_filter 0x123 0x7FF 0)) Hne).
Defined.

(** ** Transmitter delay compensation offset *)

(** C7, evaluated where the macro goes wrong: with [prop_seg = 33024],
    [phase_seg1 = 33025] and [prescaler = 65026], all of which fit
    [uint16_t], the product [(1 + prop_seg + phase_seg1) * prescaler] is
    [2^32 + 4]; it is above [tdco_max = 127], so its clamp is 127, yet the
    macro, which multiplies in [unsigned int], yields 4. *)
Lemma CAN_CALC_TDCO_wraps :
  (1 + prop_seg example_timing_wide + phase_seg1 example_timing_wide)
    * prescaler example_timing_wide = 2 ^ 32 + 4
  /\ 127 < (1 + prop_seg example_timing_wide + phase_seg1 example_timing_wide)
           * prescaler example_timing_wide
  /\ CAN_CALC_TDCO example_timing_wide 0 127 = 4
  /\ CAN_CALC_TDCO example_timing_wide 0 127 <> 127
  /\ CAN_CALC_TDCO example_timing_wide 0 127
     <> CLAMP ((1 + prop_seg example_timing_wide
                + phase_seg1 example_timing_wide)
               * prescaler example_timing_wide) 0 127.
Proof.
  vm_compute. repeat split; try reflexivity; discriminate.
Qed.

(** A bound that is negative as an [int] is compared as the
    [unsigned int] it converts to. *)
Example CAN_CALC_TDCO_negative_bound :
  CAN_CALC_TDCO (mk_can_timing 1 0 14 5 2) (-5) 127 = 4294967291.
Proof. reflexivity. Qed.

(** ** Maximum number of filters *)

(** C9: when the driver does not provide [get_max_filters] the call
    yields [-1], the value documented as "not implemented by the driver",
    which is not a count; when the driver provides it the call yields the
    number the driver reports for the requested id width, a positive
    number whenever the driver reports one. *)
Theorem can_get_max_filters_optional {D : Type} (dev : device D) (ide : bool) :
  (get_max_filters (dev_api dev) = None ->
   can_get_max_filters dev ide = -1 /\ can_get_max_filters dev ide < 0)
  /\ (forall f, get_max_filters (dev_api dev) = Some f ->
        can_get_max_filters dev ide = f (dev_data dev) ide
        /\ (0 < f (dev_data dev) ide -> 0 < can_get_max_filters dev ide)).
Proof.
  unfold can_get_max_filters. split.
  - intros ->. split; [reflexivity | lia].
  - intros f ->. split; [reflexivity | auto].
Qed.

Lemma can_get_max_filters_optional_witness :
  get_max_filters (dev_api example_dev_basic) = None
  /\ can_get_max_filters example_dev_basic true = -1
  /\ get_max_filters (dev_api example_dev) = Some example_max_filters
  /\ can_get_max_filters example_dev true = 14
  /\ can_get_max_filters example_dev false = 28.
Proof.
  split; [reflexivity |].
  split.
  { apply (proj1 (can_get_max_filters_optional example_dev_basic true)).
    reflexivity. }
  split; [reflexivity |].
  split.
  - apply (proj2 (can_get_max_filters_optional example_dev true)
                 example_max_filters).
    reflexivity.
  - apply (proj2 (can_get_max_filters_optional example_dev false)
                 example_max_filters).
    reflexivity.
Defined.

(** ** Timing calculation *)

Lemma within_spec (lo hi x : Z) :
  within lo hi x = true <-> lo <= x <= hi.
Proof.
  unfold within. rewrite andb_true_iff, !Z.leb_le. tauto.
Qed.

Lemma In_Zrange (lo hi x : Z) :
  In x (Zrange lo hi) <-> lo <= x <= hi.
Proof.
  unfold Zrange. rewrite in_map_iff. split.
  - intros (i & <- & Hi). apply in_seq in Hi. lia.
  - intros H. exists (Z.to_nat (x - lo)). split; [lia |].
    apply in_seq. lia.
Qed.

Lemma segments_in_bounds_spec (tmin tmax t : can_timing) :
  segments_in_bounds tmin tmax t = true
  <-> prescaler tmin <= prescaler t <= prescaler tmax
      /\ prop_seg tmin <= prop_seg t <= prop_seg tmax
      /\ phase_seg1 tmin <= phase_seg1 t <= phase_seg1 tmax
      /\ phase_seg2 tmin <= phase_seg2 t <= phase_seg2 tmax.
Proof.
  unfold segments_in_bounds. rewrite !andb_true_iff, !within_spec. tauto.
Qed.

Lemma In_segment_splits (tmin tmax : can_timing) (p total : Z) (t : can_timing) :
  In t (segment_splits tmin tmax p total)
  <-> prescaler t = p /\ sjw t = sjw tmin /\ total_tq t = total
      /\ prop_seg tmin <= prop_seg t <= prop_seg tmax
      /\ phase_seg1 tmin <= phase_seg1 t <= phase_seg1 tmax
      /\ phase_seg2 tmin <= phase_seg2 t <= phase_seg2 tmax.
Proof.
  unfold segment_splits. rewrite in_flat_map. split.
  - intros (prop & Hprop & Hin). apply In_Zrange in Hprop.
    apply in_flat_map in Hin. destruct Hin as (ps1 & Hps1 & Hin).
    apply In_Zrange in Hps1.
    destruct (within (phase_seg2 tmin) (phase_seg2 tmax)
                     (total - 1 - prop - ps1)) eqn:W; [| contradiction].
    apply within_spec in W.
    destruct Hin as [<- | []]. unfold total_tq.
    cbn [prescaler sjw prop_seg phase_seg1 phase_seg2]. lia.
  - intros (Hp & Hs & Ht & Hprop & Hps1 & Hps2).
    exists (prop_seg t). split; [apply In_Zrange; exact Hprop |].
    apply in_flat_map. exists (phase_seg1 t).
    split; [apply In_Zrange; exact Hps1 |].
    assert (total - 1 - prop_seg t - phase_seg1 t = phase_seg2 t) as E
      by (unfold total_tq in Ht; lia).
    rewrite E.
    apply within_spec in Hps2. rewrite Hps2.
    left. destruct t; simpl in *. subst. reflexivity.
Qed.

(** The candidates of the search are exactly the timings within the
    bounds that give the bitrate exactly. *)
Lemma In_exact_solutions (clk : Z) (tmin tmax : can_timing) (bitrate : Z)
    (t : can_timing) :
  1 <= prescaler tmin -> 0 < bitrate ->
  (In t (exact_solutions clk tmin tmax bitrate)
   <-> segments_in_bounds tmin tmax t = true
       /\ sjw t = sjw tmin
       /\ clk = bitrate * prescaler t * total_tq t).
Proof.
  intros Hpre Hbr. unfold exact_solutions.
  rewrite in_flat_map, segments_in_bounds_spec. split.
  - intros (p & Hp & Hin). apply In_Zrange in Hp.
    destruct (Z.eqb_spec (clk mod (p * bitrate)) 0) as [Hm | Hm];
      [| contradiction].
    apply In_segment_splits in Hin.
    destruct Hin as (Ep & Es & Et & Hprop & Hps1 & Hps2).
    assert (p * bitrate <> 0) as Hnz by nia.
    pose proof (Z.div_mod clk (p * bitrate) Hnz) as Hdm.
    rewrite Hm, <- Et in Hdm. rewrite Ep.
    repeat split; try lia.
  - intros ((Hp & Hprop & Hps1 & Hps2) & Hs & Heq).
    exists (prescaler t). split; [apply In_Zrange; exact Hp |].
    assert (prescaler t * bitrate <> 0) as Hnz by nia.
    assert (clk = total_tq t * (prescaler t * bitrate)) as Heq' by lia.
    assert (clk mod (prescaler t * bitrate) = 0) as Hm
      by (rewrite Heq'; apply Z.mod_mul; exact Hnz).
    rewrite Hm. simpl.
    apply In_segment_splits. repeat split; try lia.
    rewrite Heq'. symmetry. apply Z.div_mul. exact Hnz.
Qed.

Lemma closest_sample_point_In (sp : Z) (l : list can_timing) (t : can_timing) :
  closest_sample_point sp l = Some t -> In t l.
Proof.
  revert t. induction l as [| a l IH]; intros t H; simpl in H.
  - discriminate.
  - destruct (closest_sample_point sp l) as [b |].
    + destruct (Z.abs (sample_point_of a - sp)
                <=? Z.abs (sample_point_of b - sp)).
      * inversion H. left. reflexivity.
      * inversion H. subst. right. apply IH. reflexivity.
    + inversion H. left. reflexivity.
Qed.

Lemma closest_sample_point_best (sp : Z) (l : list can_timing) (t : can_timing) :
  closest_sample_point sp l = Some t ->
  forall u, In u l ->
    Z.abs (sample_point_of t - sp) <= Z.abs (sample_point_of u - sp).
Proof.
  revert t. induction l as [| a l IH]; intros t H u Hu; simpl in H.
  - contradiction.
  - destruct (closest_sample_point sp l) as [b |] eqn:Eb.
    + specialize (IH b eq_refl).
      destruct (Z.leb_spec (Z.abs (sample_point_of a - sp))
                           (Z.abs (sample_point_of b - sp))) as [Hle | Hgt];
        inversion H; subst; destruct Hu as [<- | Hu].
      * lia.
      * specialize (IH u Hu). lia.
      * lia.
      * apply IH. exact Hu.
    + inversion H; subst. destruct Hu as [<- | Hu]; [lia |].
      destruct l; [contradiction | simpl in Eb].
      destruct (closest_sample_point sp l);
        [destruct (_ <=? _) |]; discriminate.
Qed.

Lemma closest_sample_point_None (sp : Z) (l : list can_timing) :
  closest_sample_point sp l = None <-> l = [].
Proof.
  destruct l as [| a l]; simpl.
  - tauto.
  - split; [| discriminate].
    destruct (closest_sample_point sp l);
      [destruct (_ <=? _) |]; discriminate.
Qed.

Lemma ranges_ok_prescaler (tmin tmax : can_timing) :
  ranges_ok tmin tmax = true -> 1 <= prescaler tmin.
Proof.
  unfold ranges_ok. rewrite !andb_true_iff, !Z.leb_le. tauto.
Qed.

(** On valid arguments the calculator is the search alone. *)
Lemma calc_timing_valid (clk : Z) (tmin tmax : can_timing)
    (bitrate sample_pnt : Z) :
  0 < bitrate -> 0 <= sample_pnt <= 1000 -> ranges_ok tmin tmax = true ->
  calc_timing (Some clk) tmin tmax bitrate sample_pnt
  = let sp := if sample_pnt =? 0
              then sample_point_for_bitrate bitrate
              else sample_pnt in
    match closest_sample_point sp (exact_solutions clk tmin tmax bitrate) with
    | None => inl ENOTSUP
    | Some t => inr (t, sample_point_of t - sp)
    end.
Proof.
  intros Hbr Hsp Hr. unfold calc_timing. rewrite Hr.
  destruct (Z.eqb_spec bitrate 0); [lia |].
  destruct (Z.ltb_spec sample_pnt 0); [lia |].
  destruct (Z.ltb_spec 1000 sample_pnt); [lia |].
  reflexivity.
Qed.

(** C1: on valid arguments, if some timing within the prescaler and
    segment bounds gives the bitrate exactly, [can_calc_timing] succeeds
    and the timing it returns lies within the bounds and satisfies
    [core_clock = bitrate * prescaler * (1 + prop_seg + phase_seg1 +
    phase_seg2)]; if no timing within the bounds gives the bitrate
    exactly, it fails with [ENOTSUP]. *)
Theorem can_calc_timing_exact {D : Type} (dev : device D)
    (core_clock bitrate sample_pnt : Z) :
  can_get_core_clock dev = Some core_clock ->
  0 < bitrate ->
  0 <= sample_pnt <= 1000 ->
  ranges_ok (can_get_timing_min dev) (can_get_timing_max dev) = true ->
  ((exists t,
       segments_in_bounds (can_get_timing_min dev) (can_get_timing_max dev) t
       = true
       /\ core_clock = bitrate * prescaler t * total_tq t) ->
   exists res err,
     can_calc_timing dev bitrate sample_pnt = inr (res, err)
     /\ segments_in_bounds (can_get_timing_min dev) (can_get_timing_max dev) res
        = true
     /\ core_clock
        = bitrate * prescaler res
          * (1 + prop_seg res + phase_seg1 res + phase_seg2 res))
  /\ ((forall t,
         segments_in_bounds (can_get_timing_min dev) (can_get_timing_max dev) t
         = true ->
         core_clock <> bitrate * prescaler t * total_tq t) ->
      can_calc_timing dev bitrate sample_pnt = inl ENOTSUP).
Proof.
  intros Hclk Hbr Hsp Hr.
  pose proof (ranges_ok_prescaler _ _ Hr) as Hpre.
  unfold can_calc_timing. rewrite Hclk.
  rewrite (calc_timing_valid _ _ _ _ _ Hbr Hsp Hr). cbv zeta.
  set (sp := if sample_pnt =? 0 then sample_point_for_bitrate bitrate
             else sample_pnt).
  set (tmin := can_get_timing_min dev) in *.
  set (tmax := can_get_timing_max dev) in *.
  split.
  - intros (t & Hb & Heq).
    destruct (closest_sample_point sp
                (exact_solutions core_clock tmin tmax bitrate))
      as [res |] eqn:Ec.
    + exists res, (sample_point_of res - sp).
      apply closest_sample_point_In in Ec.
      apply (In_exact_solutions _ _ _ _ _ Hpre Hbr) in Ec.
      destruct Ec as (Hb' & _ & Heq').
      split; [reflexivity | split; [exact Hb' | exact Heq']].
    + exfalso. apply closest_sample_point_None in Ec.
      assert (In (mk_can_timing (sjw tmin) (prop_seg t) (phase_seg1 t)
                                (phase_seg2 t) (prescaler t))
                 (exact_solutions core_clock tmin tmax bitrate)) as Hin.
      { apply (In_exact_solutions _ _ _ _ _ Hpre Hbr).
        split; [exact Hb | split; [reflexivity | exact Heq]]. }
      rewrite Ec in Hin. contradiction.
  - intros Hnone.
    destruct (closest_sample_point sp
                (exact_solutions core_clock tmin tmax bitrate))
      as [res |] eqn:Ec; [| reflexivity].
    exfalso. apply closest_sample_point_In in Ec.
    apply (In_exact_solutions _ _ _ _ _ Hpre Hbr) in Ec.
    destruct Ec as (Hb' & _ & Heq').
    exact (Hnone res Hb' Heq').
Qed.

(** The example of the design document: 8 MHz, 500 kbit/s, 87.5 %. *)
Example can_calc_timing_8MHz_500k :
  can_calc_timing example_dev 500000 875
  = inr (mk_can_timing 1 5 8 2 1, 0).
Proof. vm_compute. reflexivity. Qed.

Lemma can_calc_timing_exact_witness :
  can_get_core_clock example_dev = Some 8000000
  /\ 0 < 500000
  /\ 0 <= 875 <= 1000
  /\ ranges_ok (can_get_timing_min example_dev)
               (can_get_timing_max example_dev) = true
  /\ (exists t,
        segments_in_bounds (can_get_timing_min example_dev)
                           (can_get_timing_max example_dev) t = true
        /\ 8000000 = 500000 * prescaler t * total_tq t)
  /\ exists res err,
       can_calc_timing example_dev 500000 875 = inr (res, err)
       /\ segments_in_bounds (can_get_timing_min example_dev)
                             (can_get_timing_max example_dev) res = true
       /\ 8000000
          = 500000 * prescaler res
            * (1 + prop_seg res + phase_seg1 res + phase_seg2 res).
Proof.
  assert (exists t,
            segments_in_bounds (can_get_timing_min example_dev)
                               (can_get_timing_max example_dev) t = true
            /\ 8000000 = 500000 * prescaler t * total_tq t) as Hex
    by (exists (mk_can_timing 1 6 7 2 1); split; reflexivity).
  split; [reflexivity |].
  split; [reflexivity |].
  split; [split; discriminate |].
  split; [reflexivity |].
  split; [exact Hex |].
  refine (proj1 (can_calc_timing_exact example_dev 8000000 500000 875
                   eq_refl eq_refl (conj _ _) eq_refl) Hex);
    discriminate.
Defined.

(** A bitrate the 8 MHz clock cannot produce exactly is refused. *)
Example can_calc_timing_8MHz_300k :
  can_calc_timing example_dev 300000 875 = inl ENOTSUP.
Proof. vm_compute. reflexivity. Qed.

(** C6: called with a sample point of 0, [can_calc_timing] works with
    the default sample point: 750 permille for bitrates above 800 kbit/s,
    800 permille for bitrates above 500 kbit/s, 875 permille for all
    other bitrates. *)
Theorem can_calc_timing_default_sample_point {D : Type} (dev : device D)
    (bitrate : Z) :
  (800000 < bitrate ->
   sample_point_for_bitrate bitrate = 750
   /\ can_calc_timing dev bitrate 0 = can_calc_timing dev bitrate 750)
  /\ (500000 < bitrate <= 800000 ->
      sample_point_for_bitrate bitrate = 800
      /\ can_calc_timing dev bitrate 0 = can_calc_timing dev bitrate 800)
  /\ (bitrate <= 500000 ->
      sample_point_for_bitrate bitrate = 875
      /\ can_calc_timing dev bitrate 0 = can_calc_timing dev bitrate 875).
Proof.
  assert (forall sp, 0 < sp <= 1000 ->
            sample_point_for_bitrate bitrate = sp ->
            can_calc_timing dev bitrate 0 = can_calc_timing dev bitrate sp)
    as Hdefault.
  { intros sp Hsp Hd. unfold can_calc_timing, calc_timing.
    destruct (Z.eqb_spec sp 0); [lia |].
    destruct (Z.ltb_spec sp 0); [lia |].
    destruct (Z.ltb_spec 1000 sp); [lia |].
    simpl. rewrite Hd. reflexivity. }
  assert (800000 < bitrate -> sample_point_for_bitrate bitrate = 750) as H750.
  { intros H. unfold sample_point_for_bitrate.
    destruct (Z.ltb_spec 800000 bitrate); [reflexivity | lia]. }
  assert (500000 < bitrate <= 800000 -> sample_point_for_bitrate bitrate = 800)
    as H800.
  { intros H. unfold sample_point_for_bitrate.
    destruct (Z.ltb_spec 800000 bitrate); [lia |].
    destruct (Z.ltb_spec 500000 bitrate); [reflexivity | lia]. }
  assert (bitrate <= 500000 -> sample_point_for_bitrate bitrate = 875) as H875.
  { intros H. unfold sample_point_for_bitrate.
    destruct (Z.ltb_spec 800000 bitrate); [lia |].
    destruct (Z.ltb_spec 500000 bitrate); [lia | reflexivity]. }
  split; [| split]; intros H.
  - split; [auto | apply Hdefault; [lia | auto]].
  - split; [auto | apply Hdefault; [lia | auto]].
  - split; [auto | apply Hdefault; [lia | auto]].
Qed.

Lemma can_calc_timing_default_sample_point_witness :
  (800000 < 1000000
   /\ can_calc_timing example_dev 1000000 0
      = can_calc_timing example_dev 1000000 750)
  /\ (500000 < 800000 <= 800000
      /\ can_calc_timing example_dev 800000 0
         = can_calc_timing example_dev 800000 800)
  /\ (125000 <= 500000
      /\ can_calc_timing example_dev 125000 0
         = can_calc_timing example_dev 125000 875).
Proof.
  split; [| split].
  - split; [reflexivity |].
    apply (proj1 (can_calc_timing_default_sample_point example_dev 1000000)).
    reflexivity.
  - split; [split; [reflexivity | discriminate] |].
    apply (proj1 (proj2 (can_calc_timing_default_sample_point
                           example_dev 800000))).
    split; [reflexivity | discriminate].
  - split; [discriminate |].
    apply (proj2 (proj2 (can_calc_timing_default_sample_point
                           example_dev 125000))).
    discriminate.
Defined.

(** The default is visible in the result: at 1 Mbit/s the 8 MHz
    controller gets a sample point of 75 %, at 125 kbit/s one of 87.5 %. *)
Example can_calc_timing_default_1M :
  can_calc_timing example_dev 1000000 0 = inr (mk_can_timing 1 1 4 2 1, 0).
Proof. vm_compute. reflexivity. Qed.

Example can_calc_timing_default_125k :
  can_calc_timing example_dev 125000 0 = inr (mk_can_timing 1 5 8 2 4, 0).
Proof. vm_compute. reflexivity. Qed.

(** C8: with the segments given, a known core clock and a bitrate that
    is not zero, [can_calc_prescaler] always succeeds: it keeps the
    segments, fills in the prescaler [core_clock / (bitrate * ts)] and
    returns the remainder of dividing the core clock by the bitrate times
    the number [ts] of time quanta; the remainder is not negative and is
    zero exactly when the bitrate is met exactly. *)
Theorem can_calc_prescaler_error {D : Type} (dev : device D)
    (timing : can_timing) (core_clock bitrate : Z) :
  can_get_core_clock dev = Some core_clock ->
  0 <= core_clock ->
  0 < bitrate ->
  0 <= prop_seg timing -> 0 <= phase_seg1 timing -> 0 <= phase_seg2 timing ->
  exists res err,
    can_calc_prescaler dev timing bitrate = inr (res, err)
    /\ sjw res = sjw timing
    /\ prop_seg res = prop_seg timing
    /\ phase_seg1 res = phase_seg1 timing
    /\ phase_seg2 res = phase_seg2 timing
    /\ prescaler res = core_clock / (bitrate * total_tq timing)
    /\ err = core_clock mod (bitrate * total_tq timing)
    /\ 0 <= err
    /\ core_clock = bitrate * prescaler res * total_tq res + err
    /\ (err = 0 <-> core_clock = bitrate * prescaler res * total_tq res).
Proof.
  intros Hclk Hc Hbr Hprop Hps1 Hps2.
  unfold can_calc_prescaler. rewrite Hclk.
  destruct (Z.eqb_spec bitrate 0); [lia |].
  assert (0 < bitrate * total_tq timing) as Hpos
    by (unfold total_tq; nia).
  pose proof (Z.mod_pos_bound core_clock _ Hpos) as Hm.
  pose proof (Z.div_mod core_clock (bitrate * total_tq timing)) as Hdm.
  assert (total_tq (set_prescaler timing
                      (core_clock / (bitrate * total_tq timing)))
          = total_tq timing) as Ets by reflexivity.
  eexists. eexists. split; [reflexivity |].
  rewrite Ets. cbn [set_prescaler sjw prop_seg phase_seg1 phase_seg2 prescaler].
  repeat split; try reflexivity; try lia.
Qed.

Lemma can_calc_prescaler_error_witness :
  can_get_core_clock example_dev = Some 8000000
  /\ exists res err,
       can_calc_prescaler example_dev (mk_can_timing 1 5 8 2 0) 300000
       = inr (res, err)
       /\ prescaler res = 1
       /\ err = 3200000.
Proof.
  split; [reflexivity |].
  destruct (can_calc_prescaler_error example_dev (mk_can_timing 1 5 8 2 0)
              8000000 300000 eq_refl)
    as (res & err & Hr & _ & _ & _ & _ & Hp & He & _);
    try discriminate; try reflexivity.
  exists res, err. split; [exact Hr |]. split; [exact Hp | exact He].
Defined.

(** ** Transmission order *)

Lemma key_ltb_spec (a b : Z * Z * Z * Z) :
  key_ltb a b = true <-> key_lt a b.
Proof.
  destruct a as [[[a1 a2] a3] a4], b as [[[b1 b2] b3] b4].
  unfold key_ltb, key_lt. cbv beta iota.
  destruct (Z.ltb_spec a1 b1), (Z.eqb_spec a1 b1), (Z.ltb_spec a2 b2),
           (Z.eqb_spec a2 b2), (Z.ltb_spec a3 b3), (Z.eqb_spec a3 b3),
           (Z.ltb_spec a4 b4);
    cbn [orb andb]; split; intros Hk; try reflexivity; try discriminate;
    lia.
Qed.

Lemma key_leb_spec (a b : Z * Z * Z * Z) :
  key_leb a b = true <-> ~ key_lt b a.
Proof.
  unfold key_leb. rewrite negb_true_iff, <- key_ltb_spec.
  destruct (key_ltb b a); split; intros H; try reflexivity;
    try discriminate; try (intros E; discriminate).
  exfalso. apply H. reflexivity.
Qed.

Lemma key_lt_trans_le (a b c : Z * Z * Z * Z) :
  ~ key_lt b a -> ~ key_lt c b -> ~ key_lt c a.
Proof.
  destruct a as [[[a1 a2] a3] a4], b as [[[b1 b2] b3] b4],
           c as [[[c1 c2] c3] c4].
  unfold key_lt. lia.
Qed.

Lemma key_leb_refl (a : Z * Z * Z * Z) : key_leb a a = true.
Proof.
  apply key_leb_spec. destruct a as [[[a1 a2] a3] a4]. unfold key_lt. lia.
Qed.

Lemma key_leb_trans (a b c : Z * Z * Z * Z) :
  key_leb a b = true -> key_leb b c = true -> key_leb a c = true.
Proof.
  rewrite !key_leb_spec. apply key_lt_trans_le.
Qed.

Lemma key_leb_total (a b : Z * Z * Z * Z) :
  key_leb a b = false -> key_leb b a = true.
Proof.
  intros H. apply key_leb_spec. intros Hlt.
  assert (key_leb a b = true) as E.
  { apply key_leb_spec.
    destruct a as [[[a1 a2] a3] a4], b as [[[b1 b2] b3] b4].
    unfold key_lt in *. lia. }
  congruence.
Qed.

(** [take_lowest] returns a queued frame of lowest key and leaves the
    other frames queued in their order. *)
Lemma take_lowest_spec (q : list can_frame) (f : can_frame)
    (rest : list can_frame) :
  take_lowest q = Some (f, rest) ->
  (exists q1 q2, q = q1 ++ f :: q2 /\ rest = q1 ++ q2)
  /\ forall g, In g q ->
       key_leb (priority_key f) (priority_key g) = true.
Proof.
  revert f rest. induction q as [| a q IH]; intros f rest H; simpl in H.
  - discriminate.
  - destruct (take_lowest q) as [[g r] |] eqn:Eq.
    + destruct (IH g r eq_refl) as ((q1 & q2 & Hq & Hr) & Hmin).
      destruct (key_leb (priority_key a) (priority_key g)) eqn:Ek;
        inversion H; subst f rest; clear H.
      * split.
        { exists [], q. split; reflexivity. }
        intros h [<- | Hh].
        { apply key_leb_refl. }
        apply (key_leb_trans _ (priority_key g)); [exact Ek |].
        apply Hmin. exact Hh.
      * split.
        { exists (a :: q1), q2. subst q r. split; reflexivity. }
        intros h [<- | Hh].
        { apply key_leb_total. exact Ek. }
        apply Hmin. exact Hh.
    + inversion H; subst f rest; clear H.
      destruct q as [| b q].
      * split.
        { exists [], []. split; reflexivity. }
        intros h [<- | []]. apply key_leb_refl.
      * simpl in Eq. destruct (take_lowest q) as [[g r] |];
          [destruct (key_leb _ _) |]; discriminate.
Qed.

Lemma take_lowest_progress (q : list can_frame) :
  q <> [] -> exists f rest, take_lowest q = Some (f, rest).
Proof.
  destruct q as [| a q]; [congruence | intros _]. simpl.
  destruct (take_lowest q) as [[g r] |].
  - destruct (key_leb (priority_key a) (priority_key g)); eauto.
  - eauto.
Qed.

(** A frame accepted by [can_send] joins the queue; nothing is handed to
    the backend by [can_send] itself. *)
Lemma can_send_queues (s s' : tx_scheduler) (frame : can_frame) :
  can_send s frame = inr s' ->
  tx_queue s' = tx_queue s ++ [frame] /\ tx_backend s' = tx_backend s.
Proof.
  unfold can_send. destruct (ctrl_state s); intros H; inversion H;
    split; reflexivity.
Qed.

(** While frames are queued, a next frame is dispatched. *)
Lemma dispatch_next_progress (s : tx_scheduler) :
  tx_queue s <> [] -> exists f s', dispatch_next s = Some (f, s').
Proof.
  intros H. unfold dispatch_next.
  destruct (take_lowest_progress _ H) as (f & rest & ->). eauto.
Qed.

(** An identifier is its base bits followed by its 18 low bits. *)
Lemma arbitration_id_split (f : can_frame) :
  arbitration_id f = base_id f * 262144 + ext_id_low f
  /\ 0 <= ext_id_low f < 262144.
Proof.
  unfold arbitration_id, base_id, ext_id_low.
  destruct (frame_is_extended f).
  - change 0x3FFFF with (Z.ones 18).
    rewrite Z.land_ones, Z.shiftr_div_pow2 by lia.
    change (2 ^ 18) with 262144.
    pose proof (Z.div_mod (frame_id f) 262144) as Hdm.
    pose proof (Z.mod_pos_bound (frame_id f) 262144) as Hb. lia.
  - rewrite Z.shiftl_mul_pow2 by lia. change (2 ^ 18) with 262144. lia.
Qed.

(** C5: while frames are queued a next frame is handed to the backend,
    and it is the queued frame with the lowest priority key, the others
    staying queued.  Hence: no queued frame has a lower identifier (as
    arbitration compares identifiers; between frames of the same
    identifier width these are the identifiers themselves); a remote
    request is dispatched only when no data frame with the identical
    identifier is queued; and an extended frame is never dispatched
    while a standard frame with the same base 11 bits is queued. *)
Theorem dispatch_next_lowest_key (s : tx_scheduler) :
  (tx_queue s <> [] -> exists f s', dispatch_next s = Some (f, s'))
  /\ forall f s',
       dispatch_next s = Some (f, s') ->
       In f (tx_queue s)
       /\ tx_backend s' = tx_backend s ++ [f]
       /\ (exists q1 q2,
              tx_queue s = q1 ++ f :: q2 /\ tx_queue s' = q1 ++ q2)
       /\ forall g, In g (tx_queue s) ->
            key_leb (priority_key f) (priority_key g) = true
            /\ arbitration_id f <= arbitration_id g
            /\ (frame_is_extended g = frame_is_extended f ->
                frame_id f <= frame_id g)
            /\ (frame_is_extended g = frame_is_extended f ->
                frame_id g = frame_id f ->
                frame_is_rtr g = false -> frame_is_rtr f = false)
            /\ (frame_is_extended g = false -> base_id g = base_id f ->
                frame_is_extended f = false).
Proof.
  split; [apply dispatch_next_progress |].
  unfold dispatch_next. intros f s' H.
  destruct (take_lowest (tx_queue s)) as [[f0 rest] |] eqn:Et;
    [| discriminate].
  inversion H; subst f0 s'; clear H. simpl.
  destruct (take_lowest_spec _ _ _ Et) as ((q1 & q2 & Hq & Hr) & Hmin).
  split; [rewrite Hq; apply in_or_app; right; left; reflexivity |].
  split; [reflexivity |].
  split; [exists q1, q2; split; assumption |].
  intros g Hg. specialize (Hmin g Hg).
  split; [exact Hmin |].
  apply key_leb_spec in Hmin. unfold priority_key, key_lt in Hmin.
  destruct (arbitration_id_split f) as [Af Lf].
  destruct (arbitration_id_split g) as [Ag Lg].
  assert (arbitration_id f <= arbitration_id g) as Harb.
  { rewrite Af, Ag. unfold ext_id_low, bool_bit in *.
    destruct (frame_is_extended f), (frame_is_extended g),
             (frame_is_rtr f), (frame_is_rtr g); lia. }
  split; [exact Harb |].
  split; [| split].
  - intros Hw. unfold arbitration_id in Harb. rewrite Hw in Harb.
    destruct (frame_is_extended f); [exact Harb |].
    rewrite !Z.shiftl_mul_pow2 in Harb by lia.
    change (2 ^ 18) with 262144 in Harb. lia.
  - intros Hw Hid Hrg.
    unfold base_id, ext_id_low in Hmin. rewrite Hw, Hid, Hrg in Hmin.
    unfold bool_bit in Hmin.
    destruct (frame_is_rtr f); [| reflexivity].
    exfalso. destruct (frame_is_extended f); lia.
  - intros Hg0 Hbase. rewrite Hg0, Hbase in Hmin. unfold bool_bit in Hmin.
    destruct (frame_is_extended f); [| reflexivity].
    exfalso. lia.
Qed.

Lemma dispatch_next_lowest_key_witness :
  tx_queue example_busy <> []
  /\ dispatch_next example_busy
     = Some (example_data_100,
             mk_tx_scheduler CAN_STATE_ERROR_ACTIVE
               [example_data_300; example_rtr_100] [example_data_100])
  /\ In example_data_100 (tx_queue example_busy)
  /\ frame_id example_data_100 <= frame_id example_data_300
  /\ key_leb (priority_key example_data_100) (priority_key example_rtr_100)
     = true.
Proof.
  assert (dispatch_next example_busy
          = Some (example_data_100,
                  mk_tx_scheduler CAN_STATE_ERROR_ACTIVE
                    [example_data_300; example_rtr_100] [example_data_100]))
    as Hd by reflexivity.
  destruct (proj2 (dispatch_next_lowest_key example_busy) _ _ Hd)
    as (Hin & _ & _ & Hall).
  split; [discriminate |].
  split; [exact Hd |].
  split; [exact Hin |].
  split.
  - assert (In example_data_300 (tx_queue example_busy)) as H300
      by (left; reflexivity).
    exact (proj1 (proj2 (proj2 (Hall example_data_300 H300))) eq_refl).
  - assert (In example_rtr_100 (tx_queue example_busy)) as H100
      by (right; left; reflexivity).
    exact (proj1 (Hall example_rtr_100 H100)).
Defined.

(** A standard remote request is dispatched before an extended data
    frame sent after it when both have identifier 0, and a standard
    frame is dispatched before an extended frame with the same base bits
    that was sent first. *)
Example dispatch_next_standard_first :
  can_send example_idle example_std_rtr = inr example_one
  /\ can_send example_one example_ext_data = inr example_contended
  /\ dispatch_next example_contended
     = Some (example_std_rtr,
             mk_tx_scheduler CAN_STATE_ERROR_ACTIVE
               [example_ext_data] [example_std_rtr])
  /\ dispatch_next
       (mk_tx_scheduler CAN_STATE_ERROR_ACTIVE
          [example_ext_100; example_rtr_100] [])
     = Some (example_rtr_100,
             mk_tx_scheduler CAN_STATE_ERROR_ACTIVE
               [example_ext_100] [example_rtr_100]).
Proof.
  repeat split.
Qed.

(** * Further properties of [can.h] *)

(** ** Payload length and DLC *)

Lemma can_dlc_to_bytes_low (dlc : Z) :
  0 <= dlc <= 8 -> can_dlc_to_bytes dlc = Some dlc.
Proof.
  intros H. assert (0 <= dlc <= 15) as H15 by lia.
  revert H. pattern dlc.
  apply Z_cases_0_15; [.. | exact H15]; intros H; try reflexivity; lia.
Qed.

Lemma can_dlc_to_bytes_some (dlc : Z) :
  0 <= dlc -> exists bytes, can_dlc_to_bytes dlc = Some bytes /\ 0 <= bytes <= 64.
Proof.
  intros H. destruct (Z_lt_le_dec dlc 15) as [Hlt | Hge].
  - assert (0 <= dlc <= 15) as H15 by lia.
    pattern dlc.
    apply Z_cases_0_15; [.. | exact H15];
      (eexists; split; [reflexivity | lia]).
  - exists 64. split; [apply can_dlc_to_bytes_clamped; exact Hge | lia].
Qed.

Ltac case_bytes_to_dlc :=
  unfold can_bytes_to_dlc;
  repeat match goal with
         | |- context [?x <=? ?y] => destruct (Z.leb_spec x y)
         end.

(** X1: for a payload of up to 64 bytes, [can_bytes_to_dlc] picks the
    smallest DLC whose frame holds the payload: the length of that DLC
    is at least [num_bytes], and no DLC below it is long enough. *)
Theorem can_bytes_to_dlc_least_fit (num_bytes : Z) :
  0 <= num_bytes <= 64 ->
  exists len,
    can_dlc_to_bytes (can_bytes_to_dlc num_bytes) = Some len
    /\ num_bytes <= len
    /\ forall dlc len', 0 <= dlc <= 15 ->
         can_dlc_to_bytes dlc = Some len' -> num_bytes <= len' ->
         can_bytes_to_dlc num_bytes <= dlc.
Proof.
  intros H.
  assert (forall d, 0 <= d <= 15 ->
            forall len', can_dlc_to_bytes d = Some len' ->
              (len' <= 8 -> d = len')
              /\ (len' <= 8 \/ len' = 12 \/ len' = 16 \/ len' = 20
                  \/ len' = 24 \/ len' = 32 \/ len' = 48 \/ len' = 64)
              /\ (len' = 12 -> d = 9) /\ (len' = 16 -> d = 10)
              /\ (len' = 20 -> d = 11) /\ (len' = 24 -> d = 12)
              /\ (len' = 32 -> d = 13) /\ (len' = 48 -> d = 14)
              /\ (len' = 64 -> d = 15)) as Htab.
  { intros d Hd. pattern d.
    apply Z_cases_0_15; [.. | exact Hd];
      intros len' E; vm_compute in E; inversion E; lia. }
  case_bytes_to_dlc.
  - exists num_bytes. split; [apply can_dlc_to_bytes_low; lia |].
    split; [lia |]. intros dlc len' Hd E Hle.
    pose proof (Htab dlc Hd len' E). lia.
  - exists 12. split; [reflexivity |]. split; [lia |].
    intros dlc len' Hd E Hle. pose proof (Htab dlc Hd len' E). lia.
  - exists 16. split; [reflexivity |]. split; [lia |].
    intros dlc len' Hd E Hle. pose proof (Htab dlc Hd len' E). lia.
  - exists 20. split; [reflexivity |]. split; [lia |].
    intros dlc len' Hd E Hle. pose proof (Htab dlc Hd len' E). lia.
  - exists 24. split; [reflexivity |]. split; [lia |].
    intros dlc len' Hd E Hle. pose proof (Htab dlc Hd len' E). lia.
  - exists 32. split; [reflexivity |]. split; [lia |].
    intros dlc len' Hd E Hle. pose proof (Htab dlc Hd len' E). lia.
  - exists 48. split; [reflexivity |]. split; [lia |].
    intros dlc len' Hd E Hle. pose proof (Htab dlc Hd len' E). lia.
  - exists 64. split; [reflexivity |]. split; [lia |].
    intros dlc len' Hd E Hle. pose proof (Htab dlc Hd len' E). lia.
Qed.

Lemma can_bytes_to_dlc_least_fit_witness :
  0 <= 21 <= 64
  /\ exists len,
       can_dlc_to_bytes (can_bytes_to_dlc 21) = Some len
       /\ 21 <= len
       /\ forall dlc len', 0 <= dlc <= 15 ->
            can_dlc_to_bytes dlc = Some len' -> 21 <= len' ->
            can_bytes_to_dlc 21 <= dlc.
Proof.
  split; [lia |]. apply (can_bytes_to_dlc_least_fit 21). lia.
Defined.

(** X2: a payload of more than 64 bytes does not fit any frame:
    [can_bytes_to_dlc] answers 15, whose frame holds only 64 bytes. *)
Theorem can_bytes_to_dlc_saturates (num_bytes : Z) :
  64 < num_bytes ->
  can_bytes_to_dlc num_bytes = CANFD_MAX_DLC
  /\ can_dlc_to_bytes (can_bytes_to_dlc num_bytes) = Some 64.
Proof.
  intros H.
  assert (can_bytes_to_dlc num_bytes = 15) as E
    by (case_bytes_to_dlc; lia).
  rewrite E. split; reflexivity.
Qed.

Lemma can_bytes_to_dlc_saturates_witness :
  64 < 200
  /\ can_bytes_to_dlc 200 = CANFD_MAX_DLC
  /\ can_dlc_to_bytes (can_bytes_to_dlc 200) = Some 64.
Proof.
  split; [lia |]. apply (can_bytes_to_dlc_saturates 200). lia.
Defined.

(** X3: [can_bytes_to_dlc] never decreases when the payload grows, stays
    within [0..15] for a payload length that is not negative, and yields
    a classic DLC (at most 8) exactly for payloads of at most 8 bytes. *)
Theorem can_bytes_to_dlc_monotone (a b : Z) :
  0 <= a -> a <= b ->
  can_bytes_to_dlc a <= can_bytes_to_dlc b
  /\ 0 <= can_bytes_to_dlc a <= CANFD_MAX_DLC
  /\ (can_bytes_to_dlc a <= CAN_MAX_DLC <-> a <= 8).
Proof.
  intros Ha Hab. unfold CANFD_MAX_DLC, CAN_MAX_DLC.
  case_bytes_to_dlc; lia.
Qed.

Lemma can_bytes_to_dlc_monotone_witness :
  0 <= 9 /\ 9 <= 13
  /\ can_bytes_to_dlc 9 <= can_bytes_to_dlc 13
  /\ 0 <= can_bytes_to_dlc 9 <= CANFD_MAX_DLC
  /\ (can_bytes_to_dlc 9 <= CAN_MAX_DLC <-> 9 <= 8).
Proof.
  split; [lia |]. split; [lia |].
  apply (can_bytes_to_dlc_monotone 9 13); lia.
Defined.

(** X4: [can_dlc_to_bytes] never decreases when the DLC grows, on all
    inputs that are not negative (including those above 15). *)
Theorem can_dlc_to_bytes_monotone (a b : Z) :
  0 <= a -> a <= b ->
  exists la lb,
    can_dlc_to_bytes a = Some la /\ can_dlc_to_bytes b = Some lb /\ la <= lb.
Proof.
  intros Ha Hab.
  destruct (Z_lt_le_dec b 15) as [Hlt | Hge].
  - assert (0 <= a <= 15) as Ha15 by lia.
    assert (0 <= b <= 15) as Hb15 by lia.
    revert Hab. pattern a.
    apply Z_cases_0_15; [.. | exact Ha15];
      (pattern b; apply Z_cases_0_15; [.. | exact Hb15]); intros Hab;
      try (exfalso; lia);
      (eexists; eexists; split; [reflexivity | split; [reflexivity | lia]]).
  - destruct (can_dlc_to_bytes_some a Ha) as (la & Ea & Hla).
    exists la, 64. split; [exact Ea |].
    split; [apply can_dlc_to_bytes_clamped; exact Hge | lia].
Qed.

Lemma can_dlc_to_bytes_monotone_witness :
  0 <= 8 /\ 8 <= 40
  /\ exists la lb,
       can_dlc_to_bytes 8 = Some la /\ can_dlc_to_bytes 40 = Some lb
       /\ la <= lb.
Proof.
  split; [lia |]. split; [lia |].
  apply (can_dlc_to_bytes_monotone 8 40); lia.
Defined.

(** X5: converting a payload length to a DLC and back gives the same
    length exactly for the lengths that occur in the table; every other
    length is rounded. *)
Theorem can_bytes_roundtrip_iff_table (num_bytes : Z) :
  0 <= num_bytes ->
  (can_dlc_to_bytes (can_bytes_to_dlc num_bytes) = Some num_bytes
   <-> In num_bytes dlc_table).
Proof.
  intros H. unfold dlc_table. cbn [In].
  case_bytes_to_dlc.
  - rewrite can_dlc_to_bytes_low by lia. split; [intros _; lia | reflexivity].
  - change (can_dlc_to_bytes 9) with (Some 12).
    split; [intros E; inversion E; lia | intros E; f_equal; lia].
  - change (can_dlc_to_bytes 10) with (Some 16).
    split; [intros E; inversion E; lia | intros E; f_equal; lia].
  - change (can_dlc_to_bytes 11) with (Some 20).
    split; [intros E; inversion E; lia | intros E; f_equal; lia].
  - change (can_dlc_to_bytes 12) with (Some 24).
    split; [intros E; inversion E; lia | intros E; f_equal; lia].
  - change (can_dlc_to_bytes 13) with (Some 32).
    split; [intros E; inversion E; lia | intros E; f_equal; lia].
  - change (can_dlc_to_bytes 14) with (Some 48).
    split; [intros E; inversion E; lia | intros E; f_equal; lia].
  - change (can_dlc_to_bytes 15) with (Some 64).
    split; [intros E; inversion E; lia | intros E; f_equal; lia].
Qed.

Lemma can_bytes_roundtrip_iff_table_witness :
  0 <= 24
  /\ can_dlc_to_bytes (can_bytes_to_dlc 24) = Some 24
  /\ can_dlc_to_bytes (can_bytes_to_dlc 25) <> Some 25.
Proof.
  split; [lia |]. split.
  - apply (can_bytes_roundtrip_iff_table 24); [lia |].
    vm_compute. tauto.
  - intros E. apply (can_bytes_roundtrip_iff_table 25) in E; [| lia].
    vm_compute in E. intuition discriminate.
Defined.

(** ** Filters *)

(** The three tests of [can_frame_matches_filter] as one condition. *)
Lemma can_frame_matches_filter_spec (frame : can_frame) (filter : can_filter) :
  can_frame_matches_filter frame filter
  = Bool.eqb (frame_is_extended frame) (filter_is_extended filter)
    && (Z.land (Z.lxor (frame_id frame) (filter_id filter))
               (filter_mask filter) =? 0).
Proof.
  unfold can_frame_matches_filter, frame_is_extended, filter_is_extended.
  destruct (Z.land (frame_flags frame) CAN_FRAME_IDE =? 0),
           (Z.land (filter_flags filter) CAN_FILTER_IDE =? 0),
           (Z.land (Z.lxor (frame_id frame) (filter_id filter))
                   (filter_mask filter) =? 0);
    reflexivity.
Qed.

Lemma land_lxor_distr (a b m : Z) :
  Z.land (Z.lxor a b) m = Z.lxor (Z.land a m) (Z.land b m).
Proof.
  apply Z.bits_inj'. intros n _.
  rewrite Z.land_spec, !Z.lxor_spec, !Z.land_spec.
  destruct (Z.testbit a n), (Z.testbit b n), (Z.testbit m n); reflexivity.
Qed.

Lemma land_low_bits (a k : Z) :
  0 <= k -> 0 <= a < 2 ^ k -> Z.land a (2 ^ k - 1) = a.
Proof.
  intros Hk Ha.
  replace (2 ^ k - 1) with (Z.ones k) by (rewrite Z.ones_equiv; lia).
  rewrite Z.land_ones by exact Hk. apply Z.mod_small. exact Ha.
Qed.

(** X6: a filter whose mask is 0 accepts every frame of its own
    identifier width, whatever the identifiers are, and no frame of the
    other width. *)
Theorem can_filter_mask_zero_matches_all (frame : can_frame) (filter : can_filter) :
  filter_mask filter = 0 ->
  can_frame_matches_filter frame filter
  = Bool.eqb (frame_is_extended frame) (filter_is_extended filter).
Proof.
  intros Hm. rewrite can_frame_matches_filter_spec, Hm, Z.land_0_r.
  apply andb_true_r.
Qed.

Lemma can_filter_mask_zero_matches_all_witness :
  filter_mask (mk_can_filter 0x55 0 0) = 0
  /\ can_frame_matches_filter (mk_can_frame 0x7FF 8 CAN_FRAME_RTR)
                              (mk_can_filter 0x55 0 0) = true.
Proof.
  split; [reflexivity |].
  rewrite (can_filter_mask_zero_matches_all
             (mk_can_frame 0x7FF 8 CAN_FRAME_RTR) (mk_can_filter 0x55 0 0)
             eq_refl).
  reflexivity.
Defined.

(** X7: the match looks at nothing but the extended-id flag of the frame
    and the identifier bits selected by the mask: two frames that agree
    on these get the same answer from every filter, whatever their DLC,
    their other flags (remote request, FD format, ...) and their
    remaining identifier bits. *)
Theorem can_filter_ignores_unmasked (f1 f2 : can_frame) (filter : can_filter) :
  frame_is_extended f1 = frame_is_extended f2 ->
  Z.land (frame_id f1) (filter_mask filter)
  = Z.land (frame_id f2) (filter_mask filter) ->
  can_frame_matches_filter f1 filter = can_frame_matches_filter f2 filter.
Proof.
  intros Hide Hid. rewrite !can_frame_matches_filter_spec, Hide.
  rewrite !land_lxor_distr, Hid. reflexivity.
Qed.

Lemma can_filter_ignores_unmasked_witness :
  can_frame_matches_filter (mk_can_frame 0x123 8 0)
                           (mk_can_filter 0x120 0x7F0 0)
  = can_frame_matches_filter (mk_can_frame 0x12F 0 CAN_FRAME_RTR)
                             (mk_can_filter 0x120 0x7F0 0).
Proof.
  apply (can_filter_ignores_unmasked
           (mk_can_frame 0x123 8 0) (mk_can_frame 0x12F 0 CAN_FRAME_RTR)
           (mk_can_filter 0x120 0x7F0 0));
    reflexivity.
Defined.

(** X8: a filter with the full mask of its identifier width
    ([CAN_STD_ID_MASK] for 11-bit, [CAN_EXT_ID_MASK] for 29-bit
    identifiers) accepts a frame of that width exactly when the
    identifiers are equal. *)
Theorem can_filter_full_mask_exact (frame : can_frame) (filter : can_filter) :
  frame_is_extended frame = filter_is_extended filter ->
  (filter_mask filter = CAN_STD_ID_MASK
   /\ 0 <= frame_id frame <= CAN_STD_ID_MASK
   /\ 0 <= filter_id filter <= CAN_STD_ID_MASK)
  \/ (filter_mask filter = CAN_EXT_ID_MASK
      /\ 0 <= frame_id frame <= CAN_EXT_ID_MASK
      /\ 0 <= filter_id filter <= CAN_EXT_ID_MASK) ->
  (can_frame_matches_filter frame filter = true
   <-> frame_id frame = filter_id filter).
Proof.
  intros Hide Hm.
  rewrite can_frame_matches_filter_spec, Hide, Bool.eqb_reflx.
  cbn [andb]. rewrite Z.eqb_eq, land_lxor_distr.
  assert (Z.land (frame_id frame) (filter_mask filter) = frame_id frame
          /\ Z.land (filter_id filter) (filter_mask filter) = filter_id filter)
    as [E1 E2].
  { destruct Hm as [(-> & Hf & Hg) | (-> & Hf & Hg)].
    - change CAN_STD_ID_MASK with (2 ^ 11 - 1) in *.
      split; apply land_low_bits; lia.
    - change CAN_EXT_ID_MASK with (2 ^ 29 - 1) in *.
      split; apply land_low_bits; lia. }
  rewrite E1, E2. apply Z.lxor_eq_0_iff.
Qed.

Lemma can_filter_full_mask_exact_witness :
  can_frame_matches_filter (mk_can_frame 0x1ABCDEF 8 CAN_FRAME_IDE)
                           (mk_can_filter 0x1ABCDEF CAN_EXT_ID_MASK
                                          CAN_FILTER_IDE) = true
  /\ can_frame_matches_filter (mk_can_frame 0x123 8 0)
                              (mk_can_filter 0x124 CAN_STD_ID_MASK 0)
     <> true.
Proof.
  split.
  - apply (can_filter_full_mask_exact
             (mk_can_frame 0x1ABCDEF 8 CAN_FRAME_IDE)
             (mk_can_filter 0x1ABCDEF CAN_EXT_ID_MASK CAN_FILTER_IDE)).
    + reflexivity.
    + right. cbn. repeat split; discriminate.
    + reflexivity.
  - intros E.
    apply (can_filter_full_mask_exact
             (mk_can_frame 0x123 8 0)
             (mk_can_filter 0x124 CAN_STD_ID_MASK 0)) in E.
    + discriminate E.
    + reflexivity.
    + left. cbn. repeat split; discriminate.
Defined.

(** X9: clearing mask bits only widens a filter: every frame accepted
    with mask [mask] is also accepted by the same filter with a mask
    whose bits are among those of [mask]. *)
Theorem can_filter_mask_widens (frame : can_frame)
    (id mask mask' flags : Z) :
  Z.land mask' mask = mask' ->
  can_frame_matches_filter frame (mk_can_filter id mask flags) = true ->
  can_frame_matches_filter frame (mk_can_filter id mask' flags) = true.
Proof.
  intros Hsub. rewrite !can_frame_matches_filter_spec.
  unfold filter_is_extended. cbn [filter_id filter_mask filter_flags].
  rewrite !andb_true_iff, !Z.eqb_eq. intros [Hide Hz].
  split; [exact Hide |].
  rewrite <- Hsub, (Z.land_comm mask' mask), Z.land_assoc, Hz.
  apply Z.land_0_l.
Qed.

Lemma can_filter_mask_widens_witness :
  Z.land 0x700 0x7F0 = 0x700
  /\ can_frame_matches_filter (mk_can_frame 0x123 8 0)
                              (mk_can_filter 0x12F 0x7F0 0) = true
  /\ can_frame_matches_filter (mk_can_frame 0x123 8 0)
                              (mk_can_filter 0x12F 0x700 0) = true.
Proof.
  split; [reflexivity |]. split; [reflexivity |].
  apply (can_filter_mask_widens (mk_can_frame 0x123 8 0) 0x12F 0x7F0 0x700 0);
    reflexivity.
Defined.

(** ** TDC offset, [DIV_ROUND_UP] and [BIT] *)

(** X11: for 16-bit segments, a prescaler below [2^15] and bounds that
    are not negative (and fit [unsigned int]) the product cannot wrap and
    the bounds are compared as they are, so [CAN_CALC_TDCO] is the
    clamped product [(1 + prop_seg + phase_seg1) * prescaler]. *)
Theorem CAN_CALC_TDCO_no_wrap (timing_data : can_timing)
    (tdco_min tdco_max : Z) :
  0 <= prop_seg timing_data <= 65535 ->
  0 <= phase_seg1 timing_data <= 65535 ->
  0 <= prescaler timing_data < 2 ^ 15 ->
  0 <= tdco_min < 2 ^ 32 ->
  0 <= tdco_max < 2 ^ 32 ->
  CAN_CALC_TDCO timing_data tdco_min tdco_max
  = CLAMP ((1 + prop_seg timing_data + phase_seg1 timing_data)
           * prescaler timing_data) tdco_min tdco_max.
Proof.
  intros Hp Hs Hq Hmin Hmax. unfold CAN_CALC_TDCO, u32.
  rewrite (Z.mod_small tdco_min), (Z.mod_small tdco_max) by assumption.
  rewrite Z.mod_small; [reflexivity |].
  change (2 ^ 15) with 32768 in Hq. change (2 ^ 32) with 4294967296.
  split; nia.
Qed.

Lemma CAN_CALC_TDCO_no_wrap_witness :
  CAN_CALC_TDCO (mk_can_timing 1 65535 65535 1 32767) 0 4294967295
  = CLAMP ((1 + 65535 + 65535) * 32767) 0 4294967295.
Proof.
  apply (CAN_CALC_TDCO_no_wrap (mk_can_timing 1 65535 65535 1 32767)
           0 4294967295);
    cbn; lia.
Defined.

(** X12: [DIV_ROUND_UP] is the quotient rounded up: for a divisor that
    is positive and operands whose sum fits 32 bits, the result [q] is
    the least number with [n <= q * d]; it is the exact quotient when
    [d] divides [n]. *)
Theorem DIV_ROUND_UP_ceiling (n d : Z) :
  0 <= n -> 0 < d -> n + d - 1 < 2 ^ 32 ->
  (DIV_ROUND_UP n d - 1) * d < n <= DIV_ROUND_UP n d * d
  /\ (n mod d = 0 -> DIV_ROUND_UP n d * d = n).
Proof.
  intros Hn Hd Hfit. unfold DIV_ROUND_UP, u32.
  rewrite Z.mod_small by lia.
  rewrite Z.quot_div_nonneg by lia.
  pose proof (Z.div_mod (n + d - 1) d) as Hdm.
  pose proof (Z.mod_pos_bound (n + d - 1) d Hd) as Hb.
  pose proof (Z.div_mod n d) as Hdn.
  pose proof (Z.mod_pos_bound n d Hd) as Hbn.
  split; [nia |].
  intros Hz. rewrite Hz in Hdn.
  assert ((n + d - 1) / d = n / d) as E.
  { symmetry. apply (Z.div_unique _ _ _ (d - 1)); [lia |]. lia. }
  rewrite E. lia.
Qed.

Lemma DIV_ROUND_UP_ceiling_witness :
  (DIV_ROUND_UP 1 2 = 1 /\ DIV_ROUND_UP 3 2 = 2)
  /\ (can_frame_data_32_len false - 1) * 4
     < CAN_MAX_DLEN false <= can_frame_data_32_len false * 4
  /\ can_frame_data_32_len true * 4 = CAN_MAX_DLEN true.
Proof.
  split; [split; reflexivity |].
  split.
  - apply (DIV_ROUND_UP_ceiling (CAN_MAX_DLEN false) 4); cbn; lia.
  - apply (DIV_ROUND_UP_ceiling (CAN_MAX_DLEN true) 4); cbn;
      try lia; reflexivity.
Defined.

Lemma BIT_testbit (i n : Z) :
  0 <= i -> Z.testbit (BIT i) n = (i =? n).
Proof.
  intros Hi. unfold BIT. rewrite Z.shiftl_1_l.
  apply Z.pow2_bits_eqb. exact Hi.
Qed.

(** X13: the flags built with [BIT] are independent: setting flag [i]
    in a flags word makes the test of flag [i] succeed and leaves the
    test of every other flag [j] as it was. *)
Theorem BIT_flags_independent (flags i j : Z) :
  0 <= i -> 0 <= j ->
  Z.land (Z.lor flags (BIT i)) (BIT i) = BIT i
  /\ BIT i <> 0
  /\ (i <> j -> Z.land (Z.lor flags (BIT i)) (BIT j) = Z.land flags (BIT j)).
Proof.
  intros Hi Hj. split; [| split].
  - apply Z.bits_inj'. intros n _.
    rewrite Z.land_spec, Z.lor_spec, BIT_testbit by exact Hi.
    destruct (Z.testbit flags n), (i =? n); reflexivity.
  - unfold BIT. rewrite Z.shiftl_1_l.
    pose proof (Z.pow_pos_nonneg 2 i). lia.
  - intros Hne. apply Z.bits_inj'. intros n _.
    rewrite !Z.land_spec, Z.lor_spec, !BIT_testbit by assumption.
    destruct (Z.eqb_spec i n), (Z.eqb_spec j n);
      destruct (Z.testbit flags n); try reflexivity; lia.
Qed.

Lemma BIT_flags_independent_witness :
  Z.land (Z.lor CAN_MODE_LOOPBACK CAN_MODE_FD) CAN_MODE_FD = CAN_MODE_FD
  /\ Z.land (Z.lor CAN_MODE_LOOPBACK CAN_MODE_FD) CAN_MODE_ONE_SHOT
     = Z.land CAN_MODE_LOOPBACK CAN_MODE_ONE_SHOT.
Proof.
  destruct (BIT_flags_independent CAN_MODE_LOOPBACK 2 3) as (H1 & _ & H2);
    [lia | lia |].
  split; [exact H1 | apply H2; lia].
Defined.

(** * Properties of the GUIX rotated pattern line *)

(** ** The loop *)

Lemma draw_columns_mask (n : nat) (pitch pattern on_color off_color : Z)
    (put mask : Z) (mem : Z -> Z) :
  fst (draw_columns n pitch pattern on_color off_color put mask mem)
  = Nat.iter n next_mask mask.
Proof.
  revert put mask mem. induction n as [| n IH]; intros put mask mem.
  - reflexivity.
  - cbn [draw_columns]. rewrite IH. symmetry. apply Nat.iter_succ_r.
Qed.

(** Cells that are not among the [n] pixel addresses keep their value. *)
Lemma draw_columns_frame (n : nat) (pitch pattern on_color off_color : Z)
    (put mask : Z) (mem : Z -> Z) (a : Z) :
  (forall k, 0 <= k < Z.of_nat n -> a <> put - k * pitch) ->
  snd (draw_columns n pitch pattern on_color off_color put mask mem) a = mem a.
Proof.
  revert put mask mem. induction n as [| n IH]; intros put mask mem H.
  - reflexivity.
  - cbn [draw_columns]. rewrite IH.
    + unfold store. destruct (Z.eqb_spec a put) as [E | E]; [| reflexivity].
      exfalso. apply (H 0); lia.
    + intros k Hk. specialize (H (k + 1)).
      replace (put - pitch - k * pitch) with (put - (k + 1) * pitch) by lia.
      apply H. lia.
Qed.

(** Every cell keeps its value or receives one of the two colours. *)
Lemma draw_columns_values (n : nat) (pitch pattern on_color off_color : Z)
    (put mask : Z) (mem : Z -> Z) (a : Z) :
  let v := snd (draw_columns n pitch pattern on_color off_color put mask mem) a in
  v = mem a \/ v = on_color \/ v = off_color.
Proof.
  revert put mask mem. induction n as [| n IH]; intros put mask mem; cbv zeta.
  - left. reflexivity.
  - cbn [draw_columns].
    destruct (IH (put - pitch) (next_mask mask)
                 (store mem put
                    (pattern_color pattern mask on_color off_color)))
      as [E | E]; [| right; exact E].
    cbv zeta in E. rewrite E. unfold store, pattern_color.
    destruct (a =? put); [| left; reflexivity].
    right. destruct (negb _); [left | right]; reflexivity.
Qed.

(** The pixel addresses all receive one of the two colours. *)
Lemma draw_columns_colored (n : nat) (pitch pattern on_color off_color : Z)
    (put mask : Z) (mem : Z -> Z) (k : Z) :
  0 <= k < Z.of_nat n ->
  let v := snd (draw_columns n pitch pattern on_color off_color put mask mem)
               (put - k * pitch) in
  v = on_color \/ v = off_color.
Proof.
  revert put mask mem k. induction n as [| n IH]; intros put mask mem k Hk;
    cbv zeta.
  - lia.
  - cbn [draw_columns].
    destruct (Z.eq_dec k 0) as [-> | Hk0].
    + destruct (draw_columns_values n pitch pattern on_color off_color
                  (put - pitch) (next_mask mask)
                  (store mem put
                     (pattern_color pattern mask on_color off_color))
                  (put - 0 * pitch)) as [E | E]; [| exact E].
      rewrite E. unfold store, pattern_color.
      replace (put - 0 * pitch =? put) with true
        by (symmetry; apply Z.eqb_eq; lia).
      destruct (negb _); [left | right]; reflexivity.
    + replace (put - k * pitch) with (put - pitch - (k - 1) * pitch) by lia.
      apply IH. lia.
Qed.

(** With a pitch that is not 0 the pixel addresses are distinct, and
    pixel [k] has the colour selected by the mask after [k] steps. *)
Lemma draw_columns_pixel (n : nat) (pitch pattern on_color off_color : Z)
    (put mask : Z) (mem : Z -> Z) (k : nat) :
  pitch <> 0 -> (k < n)%nat ->
  snd (draw_columns n pitch pattern on_color off_color put mask mem)
      (put - Z.of_nat k * pitch)
  = pattern_color pattern (Nat.iter k next_mask mask) on_color off_color.
Proof.
  intros Hp. revert put mask mem k.
  induction n as [| n IH]; intros put mask mem k Hk.
  - lia.
  - cbn [draw_columns]. destruct k as [| k].
    + rewrite draw_columns_frame.
      * unfold store. change (Nat.iter 0 next_mask mask) with mask.
        change (Z.of_nat 0) with 0.
        replace (put - 0 * pitch =? put) with true
          by (symmetry; apply Z.eqb_eq; lia).
        reflexivity.
      * intros j Hj. cbn [Z.of_nat]. nia.
    + replace (put - Z.of_nat (S k) * pitch)
        with (put - pitch - Z.of_nat k * pitch) by lia.
      rewrite IH by lia. rewrite Nat.iter_succ_r. reflexivity.
Qed.

(** Running the loop [n1 + n2] times is running it [n1] times and then
    [n2] times from where the first run stopped. *)
Lemma draw_columns_app (n1 n2 : nat) (pitch pattern on_color off_color : Z)
    (put mask : Z) (mem : Z -> Z) :
  draw_columns (n1 + n2) pitch pattern on_color off_color put mask mem
  = draw_columns n2 pitch pattern on_color off_color
      (put - Z.of_nat n1 * pitch)
      (fst (draw_columns n1 pitch pattern on_color off_color put mask mem))
      (snd (draw_columns n1 pitch pattern on_color off_color put mask mem)).
Proof.
  revert put mask mem. induction n1 as [| n1 IH]; intros put mask mem.
  - cbn [Nat.add draw_columns fst snd Z.of_nat].
    replace (put - 0 * pitch) with put by lia. reflexivity.
  - cbn [Nat.add draw_columns]. rewrite IH.
    replace (put - pitch - Z.of_nat n1 * pitch)
      with (put - Z.of_nat (S n1) * pitch) by lia.
    reflexivity.
Qed.

(** ** The mask *)

Lemma next_mask_pow2 (b : Z) :
  0 <= b < 32 -> next_mask (2 ^ b) = 2 ^ ((b - 1) mod 32).
Proof.
  intros Hb. unfold next_mask. rewrite Z.shiftr_div_pow2 by lia.
  change (2 ^ 1) with 2.
  destruct (Z.eq_dec b 0) as [-> | Hb0].
  - reflexivity.
  - assert (2 ^ b / 2 = 2 ^ (b - 1)) as E.
    { assert (2 ^ b = 2 ^ (b - 1) * 2) as E2.
      { replace b with (Z.succ (b - 1)) at 1 by lia.
        rewrite Z.pow_succ_r by lia. lia. }
      rewrite E2. apply Z.div_mul. lia. }
    rewrite E, (Z.mod_small (b - 1)) by lia.
    pose proof (Z.pow_pos_nonneg 2 (b - 1)).
    destruct (Z.eqb_spec (2 ^ (b - 1)) 0); [lia | reflexivity].
Qed.

Lemma iter_next_mask_pow2 (k : nat) (b : Z) :
  0 <= b < 32 ->
  Nat.iter k next_mask (2 ^ b) = 2 ^ ((b - Z.of_nat k) mod 32).
Proof.
  intros Hb. induction k as [| k IH].
  - change (Nat.iter 0 next_mask (2 ^ b)) with (2 ^ b).
    change (Z.of_nat 0) with 0.
    rewrite Z.sub_0_r, Z.mod_small by lia.
    reflexivity.
  - rewrite Nat.iter_succ, IH.
    rewrite next_mask_pow2 by (apply Z.mod_pos_bound; lia).
    rewrite Zminus_mod_idemp_l. f_equal. f_equal. lia.
Qed.

Lemma next_mask_nonzero (mask : Z) : next_mask mask <> 0.
Proof.
  unfold next_mask.
  destruct (Z.eqb_spec (Z.shiftr mask 1) 0); [discriminate | assumption].
Qed.

Lemma pattern_color_pow2 (pattern i on_color off_color : Z) :
  0 <= i ->
  pattern_color pattern (2 ^ i) on_color off_color
  = if Z.testbit pattern i then on_color else off_color.
Proof.
  intros Hi. unfold pattern_color.
  assert (Z.land pattern (2 ^ i) = if Z.testbit pattern i then 2 ^ i else 0)
    as E.
  { apply Z.bits_inj'. intros n Hn.
    rewrite Z.land_spec, Z.pow2_bits_eqb by exact Hi.
    destruct (Z.eqb_spec i n) as [<- | Hne].
    - destruct (Z.testbit pattern i) eqn:T.
      + rewrite Z.pow2_bits_eqb, Z.eqb_refl by exact Hi. reflexivity.
      + rewrite Z.bits_0. reflexivity.
    - rewrite andb_false_r.
      destruct (Z.testbit pattern i).
      + rewrite Z.pow2_bits_eqb by exact Hi.
        symmetry. apply Z.eqb_neq. exact Hne.
      + rewrite Z.bits_0. reflexivity. }
  rewrite E. pose proof (Z.pow_pos_nonneg 2 i).
  destruct (Z.testbit pattern i).
  - destruct (Z.eqb_spec (2 ^ i) 0); [lia | reflexivity].
  - reflexivity.
Qed.

(** ** The function *)

Lemma pattern_line_memory (context : GX_DRAW_CONTEXT) (xstart xend ypos : Z) :
  gx_draw_context_memory
    (_gx_display_driver_32bpp_rotated_horizontal_pattern_line_draw
       context xstart xend ypos)
  = snd (draw_columns (Z.to_nat (xend - xstart + 1))
           (gx_draw_context_pitch context)
           (gx_brush_line_pattern (gx_draw_context_brush context))
           (gx_brush_line_color (gx_draw_context_brush context))
           (gx_brush_fill_color (gx_draw_context_brush context))
           (pattern_line_rowstart context xstart xend ypos)
           (gx_brush_pattern_mask (gx_draw_context_brush context))
           (gx_draw_context_memory context)).
Proof.
  unfold _gx_display_driver_32bpp_rotated_horizontal_pattern_line_draw.
  destruct (draw_columns _ _ _ _ _ _ _ _). reflexivity.
Qed.

Lemma pattern_line_mask (context : GX_DRAW_CONTEXT) (xstart xend ypos : Z) :
  gx_brush_pattern_mask
    (gx_draw_context_brush
       (_gx_display_driver_32bpp_rotated_horizontal_pattern_line_draw
          context xstart xend ypos))
  = Nat.iter (Z.to_nat (xend - xstart + 1)) next_mask
      (gx_brush_pattern_mask (gx_draw_context_brush context)).
Proof.
  unfold _gx_display_driver_32bpp_rotated_horizontal_pattern_line_draw.
  rewrite <- (draw_columns_mask _
                (gx_draw_context_pitch context)
                (gx_brush_line_pattern (gx_draw_context_brush context))
                (gx_brush_line_color (gx_draw_context_brush context))
                (gx_brush_fill_color (gx_draw_context_brush context))
                (pattern_line_rowstart context xstart xend ypos)
                _ (gx_draw_context_memory context)).
  destruct (draw_columns _ _ _ _ _ _ _ _). reflexivity.
Qed.

(** The members the function does not write. *)
Lemma pattern_line_unchanged (context : GX_DRAW_CONTEXT) (xstart xend ypos : Z) :
  let context' :=
    _gx_display_driver_32bpp_rotated_horizontal_pattern_line_draw
      context xstart xend ypos in
  gx_draw_context_pitch context' = gx_draw_context_pitch context
  /\ gx_draw_context_display context' = gx_draw_context_display context
  /\ gx_draw_context_canvas context' = gx_draw_context_canvas context
  /\ gx_brush_line_pattern (gx_draw_context_brush context')
     = gx_brush_line_pattern (gx_draw_context_brush context)
  /\ gx_brush_line_color (gx_draw_context_brush context')
     = gx_brush_line_color (gx_draw_context_brush context)
  /\ gx_brush_fill_color (gx_draw_context_brush context')
     = gx_brush_fill_color (gx_draw_context_brush context).
Proof.
  unfold _gx_display_driver_32bpp_rotated_horizontal_pattern_line_draw.
  destruct (draw_columns _ _ _ _ _ _ _ _). cbn. repeat split.
Qed.

Lemma pattern_line_eq (context : GX_DRAW_CONTEXT) (xstart xend ypos : Z) :
  _gx_display_driver_32bpp_rotated_horizontal_pattern_line_draw
    context xstart xend ypos
  = let d :=
      draw_columns (Z.to_nat (xend - xstart + 1))
        (gx_draw_context_pitch context)
        (gx_brush_line_pattern (gx_draw_context_brush context))
        (gx_brush_line_color (gx_draw_context_brush context))
        (gx_brush_fill_color (gx_draw_context_brush context))
        (pattern_line_rowstart context xstart xend ypos)
        (gx_brush_pattern_mask (gx_draw_context_brush context))
        (gx_draw_context_memory context) in
    mk_GX_DRAW_CONTEXT (snd d)
      (gx_draw_context_pitch context)
      (gx_draw_context_display context)
      (gx_draw_context_canvas context)
      (mk_GX_BRUSH (gx_brush_line_pattern (gx_draw_context_brush context))
                   (fst d)
                   (gx_brush_line_color (gx_draw_context_brush context))
                   (gx_brush_fill_color (gx_draw_context_brush context))).
Proof.
  unfold _gx_display_driver_32bpp_rotated_horizontal_pattern_line_draw.
  cbv zeta. destruct (draw_columns _ _ _ _ _ _ _ _). reflexivity.
Qed.

(** X14: a line whose right end lies left of its left end is not drawn:
    the call changes neither the canvas memory nor the saved mask nor
    anything else in the context. *)
Theorem pattern_line_empty (context : GX_DRAW_CONTEXT) (xstart xend ypos : Z) :
  xend < xstart ->
  _gx_display_driver_32bpp_rotated_horizontal_pattern_line_draw
    context xstart xend ypos = context.
Proof.
  intros H. rewrite pattern_line_eq.
  assert (Z.to_nat (xend - xstart + 1) = 0%nat) as E by lia.
  rewrite E. cbn [draw_columns fst snd]. cbv zeta.
  destruct context as [mem pitch display canvas [pattern mask on off]].
  reflexivity.
Qed.

Lemma pattern_line_empty_witness :
  1 < 3
  /\ _gx_display_driver_32bpp_rotated_horizontal_pattern_line_draw
       example_context_cw 3 1 0 = example_context_cw.
Proof.
  split; [lia |]. apply (pattern_line_empty example_context_cw 3 1 0). lia.
Defined.

(** X15: the call writes the pixels of the line and nothing else: a
    memory cell that is not one of the [xend - xstart + 1] pixel
    addresses [rowstart - k * pitch] keeps its value, every pixel
    address holds the line colour or the fill colour afterwards, and of
    the context only the saved mask can change. *)
Theorem pattern_line_frame (context : GX_DRAW_CONTEXT) (xstart xend ypos : Z) :
  let context' :=
    _gx_display_driver_32bpp_rotated_horizontal_pattern_line_draw
      context xstart xend ypos in
  let rowstart := pattern_line_rowstart context xstart xend ypos in
  let pitch := gx_draw_context_pitch context in
  (forall a,
      (forall k, 0 <= k <= xend - xstart -> a <> rowstart - k * pitch) ->
      gx_draw_context_memory context' a = gx_draw_context_memory context a)
  /\ (forall k, 0 <= k <= xend - xstart ->
        gx_draw_context_memory context' (rowstart - k * pitch)
        = gx_brush_line_color (gx_draw_context_brush context)
        \/ gx_draw_context_memory context' (rowstart - k * pitch)
           = gx_brush_fill_color (gx_draw_context_brush context))
  /\ gx_draw_context_pitch context' = pitch
  /\ gx_draw_context_display context' = gx_draw_context_display context
  /\ gx_draw_context_canvas context' = gx_draw_context_canvas context
  /\ gx_brush_line_pattern (gx_draw_context_brush context')
     = gx_brush_line_pattern (gx_draw_context_brush context)
  /\ gx_brush_line_color (gx_draw_context_brush context')
     = gx_brush_line_color (gx_draw_context_brush context)
  /\ gx_brush_fill_color (gx_draw_context_brush context')
     = gx_brush_fill_color (gx_draw_context_brush context).
Proof.
  cbv zeta. split; [| split; [| apply pattern_line_unchanged]].
  - intros a Ha. rewrite pattern_line_memory.
    apply draw_columns_frame. intros k Hk. apply Ha. lia.
  - intros k Hk. rewrite pattern_line_memory.
    apply draw_columns_colored. lia.
Qed.

Lemma pattern_line_frame_witness :
  gx_draw_context_memory
    (_gx_display_driver_32bpp_rotated_horizontal_pattern_line_draw
       example_context_cw 0 3 1) 0
  = gx_draw_context_memory example_context_cw 0.
Proof.
  apply (proj1 (pattern_line_frame example_context_cw 0 3 1)).
  intros k Hk. vm_compute in Hk. destruct Hk as [Hk0 Hk3].
  change (pattern_line_rowstart example_context_cw 0 3 1) with 10.
  change (gx_draw_context_pitch example_context_cw) with 3.
  lia.
Defined.

(** X16: on a display turned clockwise, with a one-bit mask [2^b] and a
    pitch that is not 0, the pixel for column [x] of the line is the
    cell [(x_resolution - x - 1) * pitch + ypos]; it gets the line colour
    if bit [(b - (x - xstart)) mod 32] of the pattern is set and the fill
    colour otherwise: the pattern runs from [xstart] to the right and
    repeats every 32 pixels. *)
Theorem pattern_line_pixels_cw (context : GX_DRAW_CONTEXT)
    (xstart xend ypos b x : Z) :
  gx_display_rotation_angle (gx_draw_context_display context)
  = GX_SCREEN_ROTATION_CW ->
  gx_draw_context_pitch context <> 0 ->
  gx_brush_pattern_mask (gx_draw_context_brush context) = 2 ^ b ->
  0 <= b < 32 ->
  xstart <= x <= xend ->
  gx_draw_context_memory
    (_gx_display_driver_32bpp_rotated_horizontal_pattern_line_draw
       context xstart xend ypos)
    ((gx_canvas_x_resolution (gx_draw_context_canvas context) - x - 1)
     * gx_draw_context_pitch context + ypos)
  = if Z.testbit (gx_brush_line_pattern (gx_draw_context_brush context))
                 ((b - (x - xstart)) mod 32)
    then gx_brush_line_color (gx_draw_context_brush context)
    else gx_brush_fill_color (gx_draw_context_brush context).
Proof.
  intros Hrot Hp Hm Hb Hx. rewrite pattern_line_memory, Hm.
  unfold pattern_line_rowstart. rewrite Hrot, Z.eqb_refl.
  set (pitch := gx_draw_context_pitch context) in *.
  set (xres := gx_canvas_x_resolution (gx_draw_context_canvas context)).
  replace ((xres - x - 1) * pitch + ypos)
    with ((xres - xstart - 1) * pitch + ypos
          - Z.of_nat (Z.to_nat (x - xstart)) * pitch)
    by (rewrite Z2Nat.id by lia; lia).
  rewrite draw_columns_pixel by (try exact Hp; lia).
  rewrite iter_next_mask_pow2 by exact Hb.
  rewrite Z2Nat.id by lia.
  apply pattern_color_pow2. apply Z.mod_pos_bound. lia.
Qed.

Lemma pattern_line_pixels_cw_witness :
  gx_draw_context_memory
    (_gx_display_driver_32bpp_rotated_horizontal_pattern_line_draw
       example_context_cw 0 3 1)
    ((gx_canvas_x_resolution (gx_draw_context_canvas example_context_cw)
      - 2 - 1)
     * gx_draw_context_pitch example_context_cw + 1)
  = if Z.testbit
         (gx_brush_line_pattern (gx_draw_context_brush example_context_cw))
         ((31 - (2 - 0)) mod 32)
    then gx_brush_line_color (gx_draw_context_brush example_context_cw)
    else gx_brush_fill_color (gx_draw_context_brush example_context_cw).
Proof.
  apply (pattern_line_pixels_cw example_context_cw 0 3 1 31 2);
    first [reflexivity | discriminate | lia].
Defined.

(** X17: on a display that is not turned clockwise the line is drawn
    from its right end: the pixel for column [x] is the cell
    [x * pitch + (y_resolution - ypos - 1)], and it gets the line colour
    if bit [(b - (xend - x)) mod 32] of the pattern is set, the fill
    colour otherwise. *)
Theorem pattern_line_pixels_ccw (context : GX_DRAW_CONTEXT)
    (xstart xend ypos b x : Z) :
  gx_display_rotation_angle (gx_draw_context_display context)
  <> GX_SCREEN_ROTATION_CW ->
  gx_draw_context_pitch context <> 0 ->
  gx_brush_pattern_mask (gx_draw_context_brush context) = 2 ^ b ->
  0 <= b < 32 ->
  xstart <= x <= xend ->
  gx_draw_context_memory
    (_gx_display_driver_32bpp_rotated_horizontal_pattern_line_draw
       context xstart xend ypos)
    (x * gx_draw_context_pitch context
     + (gx_canvas_y_resolution (gx_draw_context_canvas context) - ypos - 1))
  = if Z.testbit (gx_brush_line_pattern (gx_draw_context_brush context))
                 ((b - (xend - x)) mod 32)
    then gx_brush_line_color (gx_draw_context_brush context)
    else gx_brush_fill_color (gx_draw_context_brush context).
Proof.
  intros Hrot Hp Hm Hb Hx. rewrite pattern_line_memory, Hm.
  unfold pattern_line_rowstart.
  destruct (Z.eqb_spec
              (gx_display_rotation_angle (gx_draw_context_display context))
              GX_SCREEN_ROTATION_CW) as [E | _]; [contradiction |].
  set (pitch := gx_draw_context_pitch context) in *.
  set (yres := gx_canvas_y_resolution (gx_draw_context_canvas context)).
  replace (x * pitch + (yres - ypos - 1))
    with (xend * pitch + (yres - ypos - 1)
          - Z.of_nat (Z.to_nat (xend - x)) * pitch)
    by (rewrite Z2Nat.id by lia; lia).
  rewrite draw_columns_pixel by (try exact Hp; lia).
  rewrite iter_next_mask_pow2 by exact Hb.
  rewrite Z2Nat.id by lia.
  apply pattern_color_pow2. apply Z.mod_pos_bound. lia.
Qed.

Lemma pattern_line_pixels_ccw_witness :
  gx_draw_context_memory
    (_gx_display_driver_32bpp_rotated_horizontal_pattern_line_draw
       example_context_ccw 0 3 1)
    (3 * gx_draw_context_pitch example_context_ccw
     + (gx_canvas_y_resolution (gx_draw_context_canvas example_context_ccw)
        - 1 - 1))
  = if Z.testbit
         (gx_brush_line_pattern (gx_draw_context_brush example_context_ccw))
         ((31 - (3 - 3)) mod 32)
    then gx_brush_line_color (gx_draw_context_brush example_context_ccw)
    else gx_brush_fill_color (gx_draw_context_brush example_context_ccw).
Proof.
  apply (pattern_line_pixels_ccw example_context_ccw 0 3 1 31 3);
    first [reflexivity | discriminate | lia].
Defined.

(** X18: the mask saved back to the brush is the entry mask rotated
    right by the number of pixels drawn: a one-bit mask [2^b] becomes
    [2^((b - len) mod 32)], so it stays a one-bit 32-bit mask and is
    unchanged by a line whose length is a multiple of 32; and whatever
    the entry mask is, after a line of at least one pixel the saved mask
    is not 0. *)
Theorem pattern_line_mask_rotates (context : GX_DRAW_CONTEXT)
    (xstart xend ypos b : Z) :
  xstart <= xend ->
  (gx_brush_pattern_mask
     (gx_draw_context_brush
        (_gx_display_driver_32bpp_rotated_horizontal_pattern_line_draw
           context xstart xend ypos)) <> 0)
  /\ (gx_brush_pattern_mask (gx_draw_context_brush context) = 2 ^ b ->
      0 <= b < 32 ->
      gx_brush_pattern_mask
        (gx_draw_context_brush
           (_gx_display_driver_32bpp_rotated_horizontal_pattern_line_draw
              context xstart xend ypos))
      = 2 ^ ((b - (xend - xstart + 1)) mod 32)
      /\ ((xend - xstart + 1) mod 32 = 0 ->
          gx_brush_pattern_mask
            (gx_draw_context_brush
               (_gx_display_driver_32bpp_rotated_horizontal_pattern_line_draw
                  context xstart xend ypos))
          = 2 ^ b)).
Proof.
  intros Hlen. rewrite pattern_line_mask. split.
  - destruct (Z.to_nat (xend - xstart + 1)) as [| n] eqn:E; [lia |].
    rewrite Nat.iter_succ. apply next_mask_nonzero.
  - intros Hm Hb. rewrite Hm, iter_next_mask_pow2 by exact Hb.
    rewrite Z2Nat.id by lia. split; [reflexivity |].
    intros Hz. f_equal.
    rewrite Zminus_mod, Hz, Z.sub_0_r, Z.mod_mod by lia.
    apply Z.mod_small. exact Hb.
Qed.

Lemma pattern_line_mask_rotates_witness :
  0 <= 3
  /\ gx_brush_pattern_mask
       (gx_draw_context_brush
          (_gx_display_driver_32bpp_rotated_horizontal_pattern_line_draw
             example_context_cw 0 3 1))
     = 2 ^ ((31 - (3 - 0 + 1)) mod 32).
Proof.
  split; [lia |].
  apply (proj2 (pattern_line_mask_rotates example_context_cw 0 3 1 31
                  ltac:(lia)));
    [reflexivity | lia].
Defined.

Lemma to_nat_split (a b : Z) :
  0 <= a -> 0 <= b -> Z.to_nat (a + b) = (Z.to_nat a + Z.to_nat b)%nat.
Proof. intros. lia. Qed.

(** X19: on a display turned clockwise, drawing the line in two calls,
    first its left part [xstart .. xmid] and then its right part
    [xmid + 1 .. xend], gives the same memory and the same saved mask as
    drawing [xstart .. xend] in one call: the saved mask carries the
    pattern across the calls. *)
Theorem pattern_line_split_cw (context : GX_DRAW_CONTEXT)
    (xstart xmid xend ypos : Z) :
  gx_display_rotation_angle (gx_draw_context_display context)
  = GX_SCREEN_ROTATION_CW ->
  xstart <= xmid + 1 -> xmid <= xend ->
  _gx_display_driver_32bpp_rotated_horizontal_pattern_line_draw
    (_gx_display_driver_32bpp_rotated_horizontal_pattern_line_draw
       context xstart xmid ypos)
    (xmid + 1) xend ypos
  = _gx_display_driver_32bpp_rotated_horizontal_pattern_line_draw
      context xstart xend ypos.
Proof.
  intros Hrot H1 H2. rewrite !pattern_line_eq. cbv zeta.
  unfold pattern_line_rowstart.
  cbn [gx_draw_context_memory gx_draw_context_pitch gx_draw_context_display
       gx_draw_context_canvas gx_draw_context_brush gx_brush_line_pattern
       gx_brush_pattern_mask gx_brush_line_color gx_brush_fill_color].
  rewrite Hrot, Z.eqb_refl.
  replace (xend - xstart + 1) with ((xmid - xstart + 1) + (xend - (xmid + 1) + 1))
    by lia.
  rewrite (to_nat_split (xmid - xstart + 1) (xend - (xmid + 1) + 1)) by lia.
  rewrite draw_columns_app.
  rewrite Z2Nat.id by lia.
  replace ((gx_canvas_x_resolution (gx_draw_context_canvas context)
            - (xmid + 1) - 1) * gx_draw_context_pitch context + ypos)
    with ((gx_canvas_x_resolution (gx_draw_context_canvas context)
           - xstart - 1) * gx_draw_context_pitch context + ypos
          - (xmid - xstart + 1) * gx_draw_context_pitch context)
    by lia.
  reflexivity.
Qed.

Lemma pattern_line_split_cw_witness :
  _gx_display_driver_32bpp_rotated_horizontal_pattern_line_draw
    (_gx_display_driver_32bpp_rotated_horizontal_pattern_line_draw
       example_context_cw 0 1 2)
    (1 + 1) 3 2
  = _gx_display_driver_32bpp_rotated_horizontal_pattern_line_draw
      example_context_cw 0 3 2.
Proof.
  apply (pattern_line_split_cw example_context_cw 0 1 3 2);
    first [reflexivity | lia].
Defined.

(** X20: on a display that is not turned clockwise the pattern starts at
    the right end, so the two calls compose in the other order: drawing
    the right part [xmid + 1 .. xend] first and then the left part
    [xstart .. xmid] gives the same memory and saved mask as drawing
    [xstart .. xend] in one call. *)
Theorem pattern_line_split_ccw (context : GX_DRAW_CONTEXT)
    (xstart xmid xend ypos : Z) :
  gx_display_rotation_angle (gx_draw_context_display context)
  <> GX_SCREEN_ROTATION_CW ->
  xstart <= xmid + 1 -> xmid <= xend ->
  _gx_display_driver_32bpp_rotated_horizontal_pattern_line_draw
    (_gx_display_driver_32bpp_rotated_horizontal_pattern_line_draw
       context (xmid + 1) xend ypos)
    xstart xmid ypos
  = _gx_display_driver_32bpp_rotated_horizontal_pattern_line_draw
      context xstart xend ypos.
Proof.
  intros Hrot H1 H2. rewrite !pattern_line_eq. cbv zeta.
  unfold pattern_line_rowstart.
  cbn [gx_draw_context_memory gx_draw_context_pitch gx_draw_context_display
       gx_draw_context_canvas gx_draw_context_brush gx_brush_line_pattern
       gx_brush_pattern_mask gx_brush_line_color gx_brush_fill_color].
  destruct (Z.eqb_spec
              (gx_display_rotation_angle (gx_draw_context_display context))
              GX_SCREEN_ROTATION_CW) as [E | _]; [contradiction |].
  replace (xend - xstart + 1) with ((xend - (xmid + 1) + 1) + (xmid - xstart + 1))
    by lia.
  rewrite (to_nat_split (xend - (xmid + 1) + 1) (xmid - xstart + 1)) by lia.
  rewrite draw_columns_app.
  rewrite Z2Nat.id by lia.
  replace (xmid * gx_draw_context_pitch context
           + (gx_canvas_y_resolution (gx_draw_context_canvas context)
              - ypos - 1))
    with (xend * gx_draw_context_pitch context
          + (gx_canvas_y_resolution (gx_draw_context_canvas context)
             - ypos - 1)
          - (xend - (xmid + 1) + 1) * gx_draw_context_pitch context)
    by lia.
  reflexivity.
Qed.

Lemma pattern_line_split_ccw_witness :
  _gx_display_driver_32bpp_rotated_horizontal_pattern_line_draw
    (_gx_display_driver_32bpp_rotated_horizontal_pattern_line_draw
       example_context_ccw (1 + 1) 3 2)
    0 1 2
  = _gx_display_driver_32bpp_rotated_horizontal_pattern_line_draw
      example_context_ccw 0 3 2.
Proof.
  apply (pattern_line_split_ccw example_context_ccw 0 1 3 2);
    first [discriminate | lia].
Defined.

(** X21: a line that lies on the canvas is drawn on the canvas: if
    [0 <= xstart], [xend < x_resolution], [0 <= ypos < y_resolution] and
    the pitch is at least the y resolution, no cell outside the
    [x_resolution * pitch] cells of the canvas memory is changed, for
    either rotation. *)
Theorem pattern_line_stays_on_canvas (context : GX_DRAW_CONTEXT)
    (xstart xend ypos a : Z) :
  0 <= xstart ->
  xend < gx_canvas_x_resolution (gx_draw_context_canvas context) ->
  0 <= ypos < gx_canvas_y_resolution (gx_draw_context_canvas context) ->
  gx_canvas_y_resolution (gx_draw_context_canvas context)
  <= gx_draw_context_pitch context ->
  a < 0
  \/ gx_canvas_x_resolution (gx_draw_context_canvas context)
     * gx_draw_context_pitch context <= a ->
  gx_draw_context_memory
    (_gx_display_driver_32bpp_rotated_horizontal_pattern_line_draw
       context xstart xend ypos) a
  = gx_draw_context_memory context a.
Proof.
  intros Hxs Hxe Hy Hpitch Ha. rewrite pattern_line_memory.
  apply draw_columns_frame. intros k Hk.
  unfold pattern_line_rowstart.
  set (pitch := gx_draw_context_pitch context) in *.
  set (xres := gx_canvas_x_resolution (gx_draw_context_canvas context)) in *.
  set (yres := gx_canvas_y_resolution (gx_draw_context_canvas context)) in *.
  assert (0 <= k <= xend - xstart) as Hk' by lia.
  destruct (gx_display_rotation_angle (gx_draw_context_display context)
            =? GX_SCREEN_ROTATION_CW).
  - replace ((xres - xstart - 1) * pitch + ypos - k * pitch)
      with ((xres - xstart - 1 - k) * pitch + ypos) by lia.
    assert (0 <= xres - xstart - 1 - k <= xres - 1) as Hrow by lia.
    nia.
  - replace (xend * pitch + (yres - ypos - 1) - k * pitch)
      with ((xend - k) * pitch + (yres - ypos - 1)) by lia.
    assert (0 <= xend - k <= xres - 1) as Hrow by lia.
    nia.
Qed.

Lemma pattern_line_stays_on_canvas_witness :
  gx_draw_context_memory
    (_gx_display_driver_32bpp_rotated_horizontal_pattern_line_draw
       example_context_ccw 0 3 2) 12
  = gx_draw_context_memory example_context_ccw 12
  /\ gx_draw_context_memory
       (_gx_display_driver_32bpp_rotated_horizontal_pattern_line_draw
          example_context_cw 0 3 0) (-1)
     = gx_draw_context_memory example_context_cw (-1).
Proof.
  split.
  - apply (pattern_line_stays_on_canvas example_context_ccw 0 3 2 12);
      cbn; lia.
  - apply (pattern_line_stays_on_canvas example_context_cw 0 3 0 (-1));
      cbn; lia.
Defined.

(** X22: a brush whose saved mask is 0 draws the first pixel of a line
    in the fill colour whatever the pattern is, and continues from the
    top bit of the pattern: after [len] pixels the saved mask is
    [2^((32 - len) mod 32)]. *)
Theorem pattern_line_zero_mask (context : GX_DRAW_CONTEXT)
    (xstart xend ypos : Z) :
  gx_brush_pattern_mask (gx_draw_context_brush context) = 0 ->
  gx_draw_context_pitch context <> 0 ->
  xstart <= xend ->
  gx_draw_context_memory
    (_gx_display_driver_32bpp_rotated_horizontal_pattern_line_draw
       context xstart xend ypos)
    (pattern_line_rowstart context xstart xend ypos)
  = gx_brush_fill_color (gx_draw_context_brush context)
  /\ gx_brush_pattern_mask
       (gx_draw_context_brush
          (_gx_display_driver_32bpp_rotated_horizontal_pattern_line_draw
             context xstart xend ypos))
     = 2 ^ ((32 - (xend - xstart + 1)) mod 32).
Proof.
  intros Hm Hp Hlen. rewrite pattern_line_memory, pattern_line_mask, Hm.
  split.
  - replace (pattern_line_rowstart context xstart xend ypos)
      with (pattern_line_rowstart context xstart xend ypos
            - Z.of_nat 0 * gx_draw_context_pitch context) at 2 by lia.
    rewrite draw_columns_pixel by (try exact Hp; lia).
    change (Nat.iter 0 next_mask 0) with 0.
    unfold pattern_color. rewrite Z.land_0_r. reflexivity.
  - destruct (Z.to_nat (xend - xstart + 1)) as [| n] eqn:E; [lia |].
    rewrite Nat.iter_succ_r.
    change (next_mask 0) with (2 ^ 31).
    rewrite iter_next_mask_pow2 by lia.
    f_equal. f_equal. lia.
Qed.

Lemma pattern_line_zero_mask_witness :
  gx_draw_context_memory
    (_gx_display_driver_32bpp_rotated_horizontal_pattern_line_draw
       (mk_GX_DRAW_CONTEXT (fun _ => 0) 3 (mk_GX_DISPLAY 270)
          (mk_GX_CANVAS 4 3) (mk_GX_BRUSH 0xFFFFFFFF 0 7 9))
       1 2 1) 7
  = 9.
Proof.
  apply (proj1 (pattern_line_zero_mask
                  (mk_GX_DRAW_CONTEXT (fun _ => 0) 3 (mk_GX_DISPLAY 270)
                     (mk_GX_CANVAS 4 3) (mk_GX_BRUSH 0xFFFFFFFF 0 7 9))
                  1 2 1 eq_refl ltac:(cbn; lia) ltac:(lia))).
Defined.
